(** * CPU scheduling policies of [Project1/schedulers.go]

    A shallow embedding of the four policy functions [FCFSSchedule],
    [SJFSchedule], [SJFPrioritySchedule] and [RRSchedule], followed by the
    properties their specification states about them.

    Conventions of the embedding:
    - Go's [int64] is a [Z] with the wrap-around of every [+] and [-]
      written out ([Int64.add], [Int64.sub]);
    - Go's [float64] is Rocq's primitive binary64 [float];
    - a [for i := range processes] loop is a left fold of its body over the
      slice; a counted loop [for i := 0; i < n; i++] that indexes several
      slices is a fold over [seq 0 n] in the option monad, [None] being Go's
      index-out-of-range panic;
    - the three renderers [outputTitle], [outputGantt], [outputSchedule] are
      outside the file: a policy returns the list of the calls it makes to
      them, in order, with the arguments it passes. *)

From Stdlib Require Import ZArith Lia Permutation Sorted Floats.
From stdpp Require Import base option list strings.

Local Open Scope Z_scope.

(** ** Machine integers and floats *)

Module Int64.

Definition modulus : Z := 2 ^ 64.
Definition min_int : Z := - 2 ^ 63.
Definition max_int : Z := 2 ^ 63 - 1.

(** The value of the 64-bit two's complement pattern of [z]. *)
Definition wrap (z : Z) : Z := (z + 2 ^ 63) mod modulus - 2 ^ 63.

Definition add (x y : Z) : Z := wrap (x + y).
Definition sub (x y : Z) : Z := wrap (x - y).

Definition in_range (z : Z) : Prop := min_int <= z <= max_int.

(** Sum of a slice of [int64]s the way a Go loop [acc += x] computes it. *)
Definition sum (l : list Z) : Z := fold_left add l 0.

End Int64.

(** [float64(x)] for an integer [x]: the nearest binary64, ties to even. *)
Definition float64 (z : Z) : float :=
  SF2Prim (binary_normalize prec emax z 0 false).

(** ** Data model *)

Record Process := mkProcess {
  ProcessID : string;
  ArrivalTime : Z;
  BurstDuration : Z;
  Priority : Z;
  RemainingTime : Z;
  Index : Z
}.

Record TimeSlice := mkTimeSlice {
  PID : string;
  Start : Z;
  Stop : Z
}.

(** Every field of a process read from Go memory is an [int64]. *)
Definition wf_process (p : Process) : Prop :=
  Int64.in_range (ArrivalTime p) /\ Int64.in_range (BurstDuration p).

(** One cell of a row of the schedule table.  The source stores
    [fmt.Sprint v]; the embedding keeps [v], as [fmt.Sprint] is injective on
    strings and on integers. *)
Inductive cell :=
  | Str (s : string)
  | Num (z : Z).

Definition row := list cell.

(** The calls a policy makes to the renderers. *)
Inductive call :=
  | outputTitle (title : string)
  | outputGantt (gantt : list TimeSlice)
  | outputSchedule (rows : list row) (aveWait aveTurnaround aveThroughput : float).

(** ** The loop shared, as three copies, by FCFS, SJF and SJF-priority *)

Record loop_state := mkLoop {
  serviceTime : Z;
  totalWait : float;
  totalTurnaround : float;
  lastCompletion : float;
  waitingTime : Z;
  schedule : list row;
  gantt : list TimeSlice
}.

(** The [var ( ... )] block: every variable at its zero value. *)
Definition loop_init : loop_state :=
  mkLoop 0 PrimFloat.zero PrimFloat.zero PrimFloat.zero 0 [] [].

(** Lines 71-96 (and their copies at 134-159 and 201-226): what an iteration
    does once [waitingTime] (and, for SJF-priority, [serviceTime]) is set.
    [schedule] is made with the length of the batch and iteration [i] assigns
    [schedule[i]]: the rows assigned so far are kept as a list, to which the
    iteration appends. *)
Definition emit (st : loop_state) (p : Process) (serviceTime waitingTime : Z)
  : loop_state :=
  let totalWait := PrimFloat.add (totalWait st) (float64 waitingTime) in
  let start := Int64.add waitingTime (ArrivalTime p) in
  let turnaround := Int64.add (BurstDuration p) waitingTime in
  let totalTurnaround := PrimFloat.add (totalTurnaround st) (float64 turnaround) in
  let completion :=
    Int64.add (Int64.add (BurstDuration p) (ArrivalTime p)) waitingTime in
  let lastCompletion := float64 completion in
  let line :=
    [ Str (ProcessID p); Num (Priority p); Num (BurstDuration p);
      Num (ArrivalTime p); Num waitingTime; Num turnaround; Num completion ] in
  let serviceTime := Int64.add serviceTime (BurstDuration p) in
  mkLoop serviceTime totalWait totalTurnaround lastCompletion waitingTime
    (schedule st ++ [line])
    (gantt st ++ [mkTimeSlice (ProcessID p) start serviceTime]).

(** Lines 99-106: the aggregates and the three renderer calls. *)
Definition finish (title : string) (n : nat) (st : loop_state) : list call :=
  let count := float64 (Z.of_nat n) in
  let aveWait := PrimFloat.div (totalWait st) count in
  let aveTurnaround := PrimFloat.div (totalTurnaround st) count in
  let aveThroughput := PrimFloat.div count (lastCompletion st) in
  [ outputTitle title; outputGantt (gantt st);
    outputSchedule (schedule st) aveWait aveTurnaround aveThroughput ].

(** *** FCFSSchedule *)

Definition FCFS_body (st : loop_state) (p : Process) : loop_state :=
  let waitingTime :=
    if 0 <? ArrivalTime p
    then Int64.sub (serviceTime st) (ArrivalTime p)
    else waitingTime st in
  emit st p (serviceTime st) waitingTime.

Definition FCFS_loop (processes : list Process) : loop_state :=
  fold_left FCFS_body processes loop_init.

Definition FCFSSchedule (title : string) (processes : list Process) : list call :=
  finish title (length processes) (FCFS_loop processes).

(** *** SJFSchedule and SJFPrioritySchedule

    Both start with [sort.Slice(processes, less)], where [less] compares
    burst durations.  The library promises a sorted permutation and nothing
    about the order of equal elements, so the sort is a parameter here and
    the theorems below assume only that promise. *)

Definition less (a b : Process) : bool := BurstDuration a <? BurstDuration b.

Definition ascending (l : list Process) : Prop :=
  Sorted (fun a b => less b a = false) l.

Definition sorter := list Process -> list Process.

Definition SJF_body (st : loop_state) (p : Process) : loop_state :=
  let waitingTime :=
    if 0 <? ArrivalTime p
    then
      let waitingTime := Int64.sub (serviceTime st) (ArrivalTime p) in
      if waitingTime <? 0 then 0 else waitingTime
    else waitingTime st in
  emit st p (serviceTime st) waitingTime.

Definition SJF_loop (processes : list Process) : loop_state :=
  fold_left SJF_body processes loop_init.

Definition SJFSchedule (sortSlice : sorter) (title : string)
    (processes : list Process) : list call :=
  let processes := sortSlice processes in
  finish title (length processes) (SJF_loop processes).

Definition SJFPriority_body (st : loop_state) (p : Process) : loop_state :=
  let serviceTime :=
    if serviceTime st <? ArrivalTime p then ArrivalTime p else serviceTime st in
  let waitingTime :=
    if 0 <? ArrivalTime p
    then
      let waitingTime := Int64.sub serviceTime (ArrivalTime p) in
      if waitingTime <? 0 then 0 else waitingTime
    else waitingTime st in
  emit st p serviceTime waitingTime.

Definition SJFPriority_loop (processes : list Process) : loop_state :=
  fold_left SJFPriority_body processes loop_init.

Definition SJFPrioritySchedule (sortSlice : sorter) (title : string)
    (processes : list Process) : list call :=
  let processes := sortSlice processes in
  finish title (length processes) (SJFPriority_loop processes).

(** *** RRSchedule *)

(** [a[i] = v] on a slice: a panic when [i] is out of range. *)
Definition store {A} (i : nat) (v : A) (a : list A) : option (list A) :=
  if decide (i < length a)%nat then Some (<[i := v]> a) else None.

(** [for _, i := range indices { s = body(s, i) }], stopping at the first
    panic. *)
Fixpoint forM {S} (body : S -> nat -> option S) (indices : list nat) (s : S)
  : option S :=
  match indices with
  | [] => Some s
  | i :: indices => s' ← body s i; forM body indices s'
  end.

(** [for i := 0; i < n; i++ { s = body(s, i) }]. *)
Definition for_range {S} (n : nat) (body : S -> nat -> option S) (s : S)
  : option S :=
  forM body (seq 0 n) s.

Module RR.

Record state := mkState {
  remainingTime : list Z;
  arrivalTime : list Z;
  waitingTime : list Z;
  turnaroundTime : list Z;
  schedule : list row;
  currentTime : Z;
  totalTurnaround : Z;
  totalWaiting : Z
}.

(** The [var ( ... )] block, lines 241-251. *)
Definition init (n : nat) : state :=
  mkState (replicate n 0) (replicate n 0) (replicate n 0) (replicate n 0)
    (replicate n []) 0 0 0.

(** Lines 260-261. *)
Definition fill_body (processes : list Process) (st : state) (i : nat)
  : option state :=
  p ← processes !! i;
  remainingTime ← store i (BurstDuration p) (remainingTime st);
  arrivalTime ← store i (ArrivalTime p) (arrivalTime st);
  Some (mkState remainingTime arrivalTime (waitingTime st) (turnaroundTime st)
          (schedule st) (currentTime st) (totalTurnaround st) (totalWaiting st)).

(** Lines 268-275; the boolean is the local [done]. *)
Definition scan_body (s : state * bool) (i : nat) : option (state * bool) :=
  let '(st, done) := s in
  r ← remainingTime st !! i;
  if 0 <? r then
    let currentTime := Int64.add (currentTime st) r in
    a ← arrivalTime st !! i;
    turnaroundTime ← store i (Int64.sub currentTime a) (turnaroundTime st);
    remainingTime ← store i 0 (remainingTime st);
    Some (mkState remainingTime (arrivalTime st) (waitingTime st) turnaroundTime
            (schedule st) currentTime (totalTurnaround st) (totalWaiting st),
          false)
  else Some (st, done).

(** One iteration of the outer [for], lines 265-276: [done := true], then
    the scan of all [n] processes. *)
Definition pass (n : nat) (st : state) : option (state * bool) :=
  for_range n scan_body (st, true).

(** Lines 264-281.  The outer [for { ... if done { break } }] has no bound
    of its own: [fuel] bounds the number of its iterations, and [None] is
    returned when they do not suffice.  The second component counts the
    scanning passes executed; it is a ghost of the embedding. *)
Fixpoint run (fuel : nat) (n : nat) (st : state) : option (state * nat) :=
  match fuel with
  | O => None
  | S fuel =>
      '(st, done) ← pass n st;
      if (done : bool) then Some (st, 1%nat)
      else '(st, passes) ← run fuel n st; Some (st, S passes)
  end.

(** Lines 284-295. *)
Definition metrics_body (processes : list Process) (st : state) (i : nat)
  : option state :=
  t ← turnaroundTime st !! i;
  p ← processes !! i;
  waitingTime ← store i (Int64.sub t (BurstDuration p)) (waitingTime st);
  let totalTurnaround := Int64.add (totalTurnaround st) t in
  w ← waitingTime !! i;
  let totalWaiting := Int64.add (totalWaiting st) w in
  schedule ← store i
    [ Str (ProcessID p); Num (Priority p); Num (BurstDuration p);
      Num (ArrivalTime p); Num w; Num t ] (schedule st);
  Some (mkState (remainingTime st) (arrivalTime st) waitingTime
          (turnaroundTime st) schedule (currentTime st) totalTurnaround
          totalWaiting).

(** Lines 298-303. *)
Definition finish (title : string) (n : nat) (st : state) : list call :=
  let avgTurnaround :=
    PrimFloat.div (float64 (totalTurnaround st)) (float64 (Z.of_nat n)) in
  let avgWaiting :=
    PrimFloat.div (float64 (totalWaiting st)) (float64 (Z.of_nat n)) in
  let throughput :=
    PrimFloat.div (float64 (Z.of_nat n)) (float64 (currentTime st)) in
  [ outputTitle title; outputSchedule (schedule st) avgWaiting avgTurnaround throughput ].

(** The body of [RRSchedule] on the sorted slice, up to the end of the
    metrics loop, with the number of scanning passes. *)
Definition compute (fuel : nat) (processes : list Process)
  : option (state * nat) :=
  let n := length processes in
  st ← for_range n (fill_body processes) (init n);
  '(st, passes) ← run fuel n st;
  st ← for_range n (metrics_body processes) st;
  Some (st, passes).

End RR.

(** [n] is read before the sort, which permutes the slice in place and so
    keeps its length: [n] is the length of the sorted slice. *)
Definition RRSchedule (fuel : nat) (sortSlice : sorter) (title : string)
    (processes : list Process) : option (list call) :=
  let processes := sortSlice processes in
  '(st, _) ← RR.compute fuel processes;
  Some (RR.finish title (length processes) st).

(** *** PriorityQueue (lines 27-49)

    A [PriorityQueue] is a slice of [*Process].  A pointer is nil or the
    address of a process; Go has no dangling pointer, so the memory gives a
    process at every address.  The methods move pointers and never write
    through them.  An index is a Go [int]; [None] is a run-time panic. *)

Module PQ.

Definition addr := nat.

Inductive pointer :=
  | nil
  | ref (a : addr).

Definition memory := addr -> Process.

(** An [interface{}] value, as far as its assertion to [*Process] tells: a
    [*Process], or a value of any other dynamic type (or none). *)
Inductive any :=
  | ProcessPtr (p : pointer)
  | Other.

Abbreviation PriorityQueue := (list pointer).

(** [pq[i]]. *)
Definition index (pq : PriorityQueue) (i : Z) : option pointer :=
  if 0 <=? i then pq !! Z.to_nat i else None.

(** [p.BurstDuration] and the like: the process [p] points to. *)
Definition deref (mem : memory) (p : pointer) : option Process :=
  match p with
  | nil => None
  | ref a => Some (mem a)
  end.

(** The process [pq[i]] points to; [None] when [i] is out of range or
    [pq[i]] is nil. *)
Definition process_at (mem : memory) (pq : PriorityQueue) (i : Z)
  : option Process :=
  index pq i ≫= deref mem.

Definition Len (pq : PriorityQueue) : Z := Z.of_nat (length pq).

Definition Less (mem : memory) (pq : PriorityQueue) (i j : Z) : option bool :=
  pi ← index pq i;
  a ← deref mem pi;
  pj ← index pq j;
  b ← deref mem pj;
  Some (BurstDuration a <? BurstDuration b).

(** [pq[i], pq[j] = pq[j], pq[i]]: both right-hand sides are read, then
    [pq[i]] and [pq[j]] are assigned in this order. *)
Definition Swap (pq : PriorityQueue) (i j : Z) : option PriorityQueue :=
  pj ← index pq j;
  pi ← index pq i;
  Some (<[Z.to_nat j := pi]> (<[Z.to_nat i := pj]> pq)).

Definition Push (pq : PriorityQueue) (x : any) : option PriorityQueue :=
  match x with
  | ProcessPtr p => Some (pq ++ [p])
  | Other => None
  end.

Definition Pop (pq : PriorityQueue) : option (any * PriorityQueue) :=
  let old := pq in
  let n := Len old in
  x ← index old (n - 1);
  Some (ProcessPtr x, take (Z.to_nat (n - 1)) old).

End PQ.

(** *** An instance of the sort

    [sort.Slice] runs an insertion sort on slices of at most twelve
    elements: each element in turn is swapped leftwards while it is [less]
    than its left neighbour. *)

Fixpoint insert (x : Process) (sorted : list Process) : list Process :=
  match sorted with
  | [] => [x]
  | y :: rest => if less x y then x :: sorted else y :: insert x rest
  end.

Definition insertionSort : sorter :=
  fun processes => fold_left (fun sorted x => insert x sorted) processes [].

(** ** Reading a policy's output *)

(** The rows handed to [outputSchedule]. *)
Definition scheduleOf (calls : list call) : list row :=
  flat_map (fun c => match c with outputSchedule rows _ _ _ => rows | _ => [] end)
    calls.

(** The slices handed to [outputGantt]. *)
Definition ganttOf (calls : list call) : list TimeSlice :=
  flat_map (fun c => match c with outputGantt g => g | _ => [] end) calls.

(** The three aggregates handed to [outputSchedule]: average waiting time,
    average turnaround time, throughput. *)
Definition aggregatesOf (calls : list call) : list (float * float * float) :=
  flat_map
    (fun c => match c with outputSchedule _ w t th => [(w, t, th)] | _ => [] end)
    calls.

(** The throughput handed to [outputSchedule]. *)
Definition throughputOf (calls : list call) : list float :=
  (fun a => snd a) <$> aggregatesOf calls.

(** Columns of a row, in the order of the source's [[]string{...}]. *)
Definition colPID : nat := 0.
Definition colPriority : nat := 1.
Definition colBurst : nat := 2.
Definition colArrival : nat := 3.
Definition colWaiting : nat := 4.
Definition colTurnaround : nat := 5.
Definition colCompletion : nat := 6.

Definition num (k : nat) (r : row) : option Z :=
  match r !! k with Some (Num z) => Some z | _ => None end.

Definition str (k : nat) (r : row) : option string :=
  match r !! k with Some (Str s) => Some s | _ => None end.

(** The two identities of the data model, on one row. *)
Definition row_identities (r : row) : Prop :=
  exists a b w t c,
    num colArrival r = Some a /\ num colBurst r = Some b /\
    num colWaiting r = Some w /\ num colTurnaround r = Some t /\
    num colCompletion r = Some c /\
    c = Int64.add (Int64.add a w) b /\ t = Int64.add w b.

(** The turnaround identity alone, for a row without completion column. *)
Definition row_turnaround_identity (r : row) : Prop :=
  exists b w t,
    num colBurst r = Some b /\ num colWaiting r = Some w /\
    num colTurnaround r = Some t /\ t = Int64.add w b.

Definition waiting_nonneg (r : row) : Prop :=
  exists w, num colWaiting r = Some w /\ 0 <= w.

(** The waiting time of the row before row [i]; 0 before the first. *)
Definition previous_waiting (rows : list row) (i : nat) : option Z :=
  match i with
  | O => Some 0
  | S j => rows !! j ≫= num colWaiting
  end.

(** The row and the slice the three loops emit for [p], from the waiting
    time and the clock chosen for it. *)
Definition line (p : Process) (w : Z) : row :=
  [ Str (ProcessID p); Num (Priority p); Num (BurstDuration p);
    Num (ArrivalTime p); Num w; Num (Int64.add (BurstDuration p) w);
    Num (Int64.add (Int64.add (BurstDuration p) (ArrivalTime p)) w) ].

Definition slice (p : Process) (w clock : Z) : TimeSlice :=
  mkTimeSlice (ProcessID p) (Int64.add w (ArrivalTime p)) clock.

(** The promise of [sort.Slice] with [less]. *)
Definition sorts (sortSlice : sorter) : Prop :=
  forall l, Permutation l (sortSlice l) /\ ascending (sortSlice l).

(** The clock advance of SJF-priority as the specification words it: when
    the clock is behind the arrival of [p], the CPU idles until [p] is
    ready. *)
Definition idle_until_ready (st : loop_state) (p : Process) : loop_state :=
  if serviceTime st <? ArrivalTime p
  then mkLoop (ArrivalTime p) (totalWait st) (totalTurnaround st)
         (lastCompletion st) (waitingTime st) (schedule st) (gantt st)
  else st.

(** RR in closed form.  The clock moves only for a process whose burst is
    positive; such a process turns around at the clock reached after it,
    less its arrival; any other process is never run and keeps the zero the
    slice was made with. *)
Definition rr_advance (clock burst : Z) : Z :=
  if 0 <? burst then Int64.add clock burst else clock.

Definition rr_clock (processes : list Process) : Z :=
  fold_left rr_advance (BurstDuration <$> processes) 0.

Definition rr_turnaround (processes : list Process) (i : nat) (p : Process) : Z :=
  if 0 <? BurstDuration p
  then Int64.sub (rr_clock (take (S i) processes)) (ArrivalTime p)
  else 0.

Definition rr_line (p : Process) (t : Z) : row :=
  [ Str (ProcessID p); Num (Priority p); Num (BurstDuration p);
    Num (ArrivalTime p); Num (Int64.sub t (BurstDuration p)); Num t ].

(** What RR leaves in [remainingTime] after its first pass, and whether a
    process is skipped by every pass. *)
Definition rr_remaining (p : Process) : Z :=
  if 0 <? BurstDuration p then 0 else BurstDuration p.

Definition rr_skipped (p : Process) : bool := negb (0 <? BurstDuration p).

Definition rr_turnarounds (processes : list Process) : list Z :=
  imap (rr_turnaround processes) processes.

Definition rr_rows (processes : list Process) : list row :=
  zip_with rr_line processes (rr_turnarounds processes).

Definition rr_waitings (processes : list Process) : list Z :=
  zip_with (fun p t => Int64.sub t (BurstDuration p)) processes
    (rr_turnarounds processes).

(** The number of scanning passes of RR's outer loop. *)
Definition rr_passes (processes : list Process) : nat :=
  if forallb rr_skipped processes then 1%nat else 2%nat.

(** The state RR reaches after its metrics loop. *)
Definition rr_final (processes : list Process) : RR.state :=
  RR.mkState (rr_remaining <$> processes) (ArrivalTime <$> processes)
    (rr_waitings processes) (rr_turnarounds processes) (rr_rows processes)
    (rr_clock processes) (Int64.sum (rr_turnarounds processes))
    (Int64.sum (rr_waitings processes)).

(** Sum of a list, in [Z]. *)
Definition total (l : list Z) : Z := foldr Z.add 0 l.

(** Sum of the positive elements, in [Z]. *)
Definition positive_sum (l : list Z) : Z :=
  foldr (fun b acc => if 0 <? b then b + acc else acc) 0 l.

(** A column of the table, as the numbers it holds. *)
Definition numbers (k : nat) (rows : list row) : list Z := omap (num k) rows.

(** What a row tells of its process: identifier, priority, burst duration
    and arrival time. *)
Definition described (p : Process) : string * Z * Z * Z :=
  (ProcessID p, Priority p, BurstDuration p, ArrivalTime p).

Definition describes (r : row) : option (string * Z * Z * Z) :=
  pid ← str colPID r;
  priority ← num colPriority r;
  burst ← num colBurst r;
  arrival ← num colArrival r;
  Some (pid, priority, burst, arrival).

(** Sum of [int64]s as a [float64], the way a Go loop
    [acc += float64(x)] computes it. *)
Definition fsum (l : list Z) : float :=
  fold_left (fun acc z => PrimFloat.add acc (float64 z)) l PrimFloat.zero.

(** The stop of the slice before slice [i]; 0 before the first. *)
Definition previous_stop (slices : list TimeSlice) (i : nat) : option Z :=
  match i with
  | O => Some 0
  | S j => Stop <$> slices !! j
  end.

(** A process with the two fields no policy reads set to zero. *)
Definition forget_bookkeeping (p : Process) : Process :=
  mkProcess (ProcessID p) (ArrivalTime p) (BurstDuration p) (Priority p) 0 0.

(** ** The batch of the specification's scenarios *)

Definition P1 := mkProcess "P1" 0 5 0 0 0.
Definition P2 := mkProcess "P2" 1 3 0 0 0.
Definition P3 := mkProcess "P3" 2 8 0 0 0.

(** A process that arrives late, and one with a negative burst, both
    accepted by the source, which validates nothing. *)
Definition Late := mkProcess "Late" 2 5 0 0 0.
Definition Negative := mkProcess "Negative" 0 (-2) 0 0 0.

(** ** Properties

    *** The scenarios of the specification, evaluated *)

Example scenario_A :
  FCFSSchedule "t" [P1; P2; P3] =
  [ outputTitle "t";
    outputGantt [mkTimeSlice "P1" 0 5; mkTimeSlice "P2" 5 8; mkTimeSlice "P3" 8 16];
    outputSchedule
      [ [Str "P1"; Num 0; Num 5; Num 0; Num 0; Num 5; Num 5];
        [Str "P2"; Num 0; Num 3; Num 1; Num 4; Num 7; Num 8];
        [Str "P3"; Num 0; Num 8; Num 2; Num 6; Num 14; Num 16] ]
      (PrimFloat.div (float64 10) (float64 3))
      (PrimFloat.div (float64 26) (float64 3))
      0.1875%float ].
Proof. vm_compute. reflexivity. Qed.

Example scenario_B :
  SJFSchedule insertionSort "t" [P1; P2; P3] =
  [ outputTitle "t";
    outputGantt [mkTimeSlice "P2" 1 3; mkTimeSlice "P1" 0 8; mkTimeSlice "P3" 8 16];
    outputSchedule
      [ [Str "P2"; Num 0; Num 3; Num 1; Num 0; Num 3; Num 4];
        [Str "P1"; Num 0; Num 5; Num 0; Num 0; Num 5; Num 5];
        [Str "P3"; Num 0; Num 8; Num 2; Num 6; Num 14; Num 16] ]
      2%float
      (PrimFloat.div (float64 22) (float64 3))
      0.1875%float ].
Proof. vm_compute. reflexivity. Qed.

Example scenario_C :
  RRSchedule 2 insertionSort "t" [P1; P2; P3] =
  Some [ outputTitle "t";
    outputSchedule
      [ [Str "P2"; Num 0; Num 3; Num 1; Num (-1); Num 2];
        [Str "P1"; Num 0; Num 5; Num 0; Num 3; Num 8];
        [Str "P3"; Num 0; Num 8; Num 2; Num 6; Num 14] ]
      (PrimFloat.div (float64 8) (float64 3))
      8%float
      0.1875%float ].
Proof. vm_compute. reflexivity. Qed.

(** *** Arithmetic of [int64] *)

Module Int64Facts.
Import Int64.

Lemma wrap_range z : in_range (wrap z).
Proof.
  unfold in_range, wrap, min_int, max_int, modulus.
  pose proof (Z.mod_pos_bound (z + 2 ^ 63) (2 ^ 64) ltac:(lia)). lia.
Qed.

Lemma wrap_id z : in_range z -> wrap z = z.
Proof.
  unfold in_range, wrap, min_int, max_int, modulus. intros H.
  rewrite Z.mod_small; lia.
Qed.

Lemma wrap_add_l x y : wrap (wrap x + y) = wrap (x + y).
Proof.
  unfold wrap, modulus. f_equal.
  replace ((x + 2 ^ 63) mod 2 ^ 64 - 2 ^ 63 + y + 2 ^ 63)
    with ((x + 2 ^ 63) mod 2 ^ 64 + y) by lia.
  rewrite Zplus_mod_idemp_l. f_equal. lia.
Qed.

Lemma wrap_add_r x y : wrap (x + wrap y) = wrap (x + y).
Proof. rewrite Z.add_comm, wrap_add_l. f_equal. lia. Qed.

Lemma wrap_sub_l x y : wrap (wrap x - y) = wrap (x - y).
Proof. unfold Z.sub. apply wrap_add_l. Qed.

Lemma add_comm x y : add x y = add y x.
Proof. unfold add. f_equal. lia. Qed.

Lemma add_assoc x y z : add (add x y) z = add x (add y z).
Proof. unfold add. rewrite wrap_add_l, wrap_add_r. f_equal. lia. Qed.

Lemma add_range x y : in_range (add x y).
Proof. apply wrap_range. Qed.

Lemma sub_range x y : in_range (sub x y).
Proof. apply wrap_range. Qed.

Lemma add_0_r x : in_range x -> add x 0 = x.
Proof. intros H. unfold add. rewrite Z.add_0_r. now apply wrap_id. Qed.

Lemma add_0_l x : in_range x -> add 0 x = x.
Proof. intros H. unfold add. now apply wrap_id. Qed.

Lemma sub_add x y : in_range x -> add (sub x y) y = x.
Proof.
  intros H. unfold add, sub. rewrite wrap_add_l.
  replace (x - y + y) with x by lia. now apply wrap_id.
Qed.

Lemma sub_diag x : sub x x = 0.
Proof. unfold sub. now rewrite Z.sub_diag. Qed.

Lemma in_range_0 : in_range 0.
Proof. unfold in_range, min_int, max_int. lia. Qed.

End Int64Facts.

(** *** The common shape of the three loops *)

Section Loop.

Variable body : loop_state -> Process -> loop_state.

Hypothesis body_schedule : forall st p,
  schedule (body st p) = schedule st ++ [line p (waitingTime (body st p))].

Hypothesis body_gantt : forall st p,
  gantt (body st p) =
  gantt st ++ [slice p (waitingTime (body st p)) (serviceTime (body st p))].

Lemma loop_snoc (ps : list Process) p st :
  fold_left body (ps ++ [p]) st = body (fold_left body ps st) p.
Proof. now rewrite fold_left_app. Qed.

Lemma loop_lengths (ps : list Process) :
  length (schedule (fold_left body ps loop_init)) = length ps /\
  length (gantt (fold_left body ps loop_init)) = length ps.
Proof.
  induction ps as [|p ps [IH1 IH2]] using rev_ind; [done|].
  rewrite loop_snoc, body_schedule, body_gantt, !length_app, IH1, IH2.
  done.
Qed.

Lemma loop_lookup (ps : list Process) i p :
  ps !! i = Some p ->
  let st := fold_left body (take (S i) ps) loop_init in
  schedule (fold_left body ps loop_init) !! i = Some (line p (waitingTime st)) /\
  gantt (fold_left body ps loop_init) !! i
  = Some (slice p (waitingTime st) (serviceTime st)).
Proof.
  revert i p. induction ps as [|q ps IH] using rev_ind; intros i p Hi; [done|].
  cbv zeta. destruct (loop_lengths ps) as [L1 L2].
  rewrite loop_snoc, body_schedule, body_gantt.
  destruct (decide (i < length ps)%nat) as [Hlt|Hge].
  - rewrite lookup_app_l in Hi by done.
    rewrite !lookup_app_l by lia. rewrite take_app_le by lia.
    now apply IH.
  - pose proof (lookup_lt_Some _ _ _ Hi) as Hlen. rewrite length_app in Hlen.
    simpl in Hlen. assert (i = length ps) as -> by lia.
    rewrite list_lookup_middle in Hi by done. injection Hi as ->.
    rewrite take_ge by (rewrite length_app; simpl; lia).
    rewrite loop_snoc.
    split; apply list_lookup_middle; congruence.
Qed.

Lemma loop_rows_Forall (P : row -> Prop) (ps : list Process) :
  (forall p w, P (line p w)) -> Forall P (schedule (fold_left body ps loop_init)).
Proof.
  intros HP. induction ps as [|p ps IH] using rev_ind; [constructor|].
  rewrite loop_snoc, body_schedule. apply Forall_app. split; [done|].
  repeat constructor. apply HP.
Qed.

Lemma loop_rows_Forall_carried (Q : Z -> Prop) (P : row -> Prop)
    (ps : list Process) :
  Q 0 ->
  (forall st p, Q (waitingTime st) -> Q (waitingTime (body st p))) ->
  (forall p w, Q w -> P (line p w)) ->
  Forall P (schedule (fold_left body ps loop_init)) /\
  Q (waitingTime (fold_left body ps loop_init)).
Proof.
  intros H0 Hstep HP. induction ps as [|p ps [IH1 IH2]] using rev_ind.
  - split; [constructor|exact H0].
  - rewrite loop_snoc, body_schedule. split; [|now apply Hstep].
    apply Forall_app. split; [done|]. repeat constructor.
    now apply HP, Hstep.
Qed.

Lemma loop_previous_waiting (ps : list Process) i :
  (i <= length ps)%nat ->
  previous_waiting (schedule (fold_left body ps loop_init)) i
  = Some (waitingTime (fold_left body (take i ps) loop_init)).
Proof.
  destruct i as [|j]; intros Hi; [done|]. simpl.
  destruct (lookup_lt_is_Some_2 ps j ltac:(lia)) as [q Hq].
  destruct (loop_lookup ps j q Hq) as [-> _]. done.
Qed.

End Loop.

Lemma scheduleOf_finish title n st : scheduleOf (finish title n st) = schedule st.
Proof. unfold scheduleOf, finish. simpl. now rewrite app_nil_r. Qed.

Lemma ganttOf_finish title n st : ganttOf (finish title n st) = gantt st.
Proof. unfold ganttOf, finish. simpl. now rewrite app_nil_r. Qed.

Lemma sum_snoc l b : Int64.sum (l ++ [b]) = Int64.add (Int64.sum l) b.
Proof. unfold Int64.sum. now rewrite fold_left_app. Qed.

Lemma line_identities p w : row_identities (line p w).
Proof.
  exists (ArrivalTime p), (BurstDuration p), w,
    (Int64.add (BurstDuration p) w),
    (Int64.add (Int64.add (BurstDuration p) (ArrivalTime p)) w).
  repeat split; try reflexivity.
  - unfold Int64.add. rewrite !Int64Facts.wrap_add_l. f_equal. lia.
  - apply Int64Facts.add_comm.
Qed.

(** *** The bodies of the three loops *)

Lemma FCFS_body_schedule st p :
  schedule (FCFS_body st p) = schedule st ++ [line p (waitingTime (FCFS_body st p))].
Proof. reflexivity. Qed.

Lemma FCFS_body_gantt st p :
  gantt (FCFS_body st p) =
  gantt st ++ [slice p (waitingTime (FCFS_body st p)) (serviceTime (FCFS_body st p))].
Proof. reflexivity. Qed.

Lemma SJF_body_schedule st p :
  schedule (SJF_body st p) = schedule st ++ [line p (waitingTime (SJF_body st p))].
Proof. reflexivity. Qed.

Lemma SJF_body_gantt st p :
  gantt (SJF_body st p) =
  gantt st ++ [slice p (waitingTime (SJF_body st p)) (serviceTime (SJF_body st p))].
Proof. reflexivity. Qed.

Lemma SJFPriority_body_schedule st p :
  schedule (SJFPriority_body st p)
  = schedule st ++ [line p (waitingTime (SJFPriority_body st p))].
Proof. reflexivity. Qed.

Lemma SJFPriority_body_gantt st p :
  gantt (SJFPriority_body st p) =
  gantt st ++ [slice p (waitingTime (SJFPriority_body st p))
                 (serviceTime (SJFPriority_body st p))].
Proof. reflexivity. Qed.

(** Neither FCFS nor SJF ever lets the CPU idle: the clock is the sum of the
    bursts served so far. *)
Lemma FCFS_clock ps :
  serviceTime (FCFS_loop ps) = Int64.sum (BurstDuration <$> ps).
Proof.
  unfold FCFS_loop. induction ps as [|p ps IH] using rev_ind; [done|].
  rewrite fold_left_app, fmap_app.
  change (BurstDuration <$> [p]) with [BurstDuration p].
  rewrite sum_snoc, <- IH. reflexivity.
Qed.

Lemma SJF_clock ps :
  serviceTime (SJF_loop ps) = Int64.sum (BurstDuration <$> ps).
Proof.
  unfold SJF_loop. induction ps as [|p ps IH] using rev_ind; [done|].
  rewrite fold_left_app, fmap_app.
  change (BurstDuration <$> [p]) with [BurstDuration p].
  rewrite sum_snoc, <- IH. reflexivity.
Qed.

Lemma take_lookup_snoc {A} (l : list A) i x :
  l !! i = Some x -> take (S i) l = take i l ++ [x].
Proof. apply take_S_r. Qed.

(** *** FCFS *)

(** C3.  FCFS serves the processes in the caller's order: row [i] and slice
    [i] are those of the [i]-th process.  The clock starts at 0 and is
    advanced by each burst, so that before process [i] it is the [int64] sum
    of the bursts before it, and slice [i] stops one burst later.  A process
    with a positive arrival time waits [clock - arrival], not clamped; a
    process with arrival time 0 (or less) gets the waiting time of the row
    before it, 0 when it is the first. *)
Theorem FCFS_waiting_rule (title : string) (processes : list Process) i p :
  processes !! i = Some p ->
  let out := FCFSSchedule title processes in
  let clock := Int64.sum (BurstDuration <$> take i processes) in
  serviceTime (FCFS_loop (take i processes)) = clock /\
  exists r g,
    scheduleOf out !! i = Some r /\ ganttOf out !! i = Some g /\
    str colPID r = Some (ProcessID p) /\ PID g = ProcessID p /\
    Stop g = Int64.add clock (BurstDuration p) /\
    (0 < ArrivalTime p ->
     num colWaiting r = Some (Int64.sub clock (ArrivalTime p))) /\
    (ArrivalTime p <= 0 ->
     num colWaiting r = previous_waiting (scheduleOf out) i).
Proof.
  intros Hi out clock. subst out. unfold FCFSSchedule.
  rewrite scheduleOf_finish, ganttOf_finish.
  split; [apply FCFS_clock|].
  destruct (loop_lookup FCFS_body FCFS_body_schedule FCFS_body_gantt
              processes i p Hi) as [Hr Hg].
  pose proof (lookup_lt_Some _ _ _ Hi) as Hlt.
  pose proof (loop_previous_waiting FCFS_body FCFS_body_schedule
                FCFS_body_gantt processes i ltac:(lia)) as Hprev.
  fold (FCFS_loop processes) in Hr, Hg, Hprev |- *.
  rewrite (take_lookup_snoc _ _ _ Hi), loop_snoc in Hr, Hg.
  fold (FCFS_loop (take i processes)) in Hr, Hg, Hprev.
  eexists _, _. split; [exact Hr|]. split; [exact Hg|].
  split; [reflexivity|]. split; [reflexivity|].
  split; [simpl; now rewrite FCFS_clock|].
  unfold FCFS_body. split; intros Ha.
  - apply Z.ltb_lt in Ha. rewrite Ha. simpl. now rewrite FCFS_clock.
  - apply Z.ltb_ge in Ha. rewrite Ha. simpl. now rewrite Hprev.
Qed.

Lemma FCFS_waiting_rule_witness :
  exists r,
    scheduleOf (FCFSSchedule "FCFS" [P1; P2; P3]) !! 1%nat = Some r /\
    num colWaiting r = Some 4.
Proof.
  destruct (FCFS_waiting_rule "FCFS" [P1; P2; P3] 1 P2 eq_refl)
    as (_ & r & g & Hr & _ & _ & _ & _ & Hw & _).
  exists r. split; [exact Hr|]. apply Hw. reflexivity.
Defined.

(** *** The insertion sort keeps the promise of [sort.Slice] *)

Lemma insert_perm x l : Permutation (x :: l) (insert x l).
Proof.
  induction l as [|y l IH]; simpl; [done|].
  destruct (less x y); [done|].
  rewrite perm_swap. now constructor.
Qed.

Lemma insert_HdRel a x l :
  less x a = false ->
  HdRel (fun a b => less b a = false) a l ->
  HdRel (fun a b => less b a = false) a (insert x l).
Proof.
  intros Hx Hl. destruct l as [|y l]; simpl; [now constructor|].
  inversion_clear Hl. destruct (less x y); now constructor.
Qed.

Lemma insert_ascending x l : ascending l -> ascending (insert x l).
Proof.
  unfold ascending. induction 1 as [|y l Hs IH Hd]; simpl.
  - repeat constructor.
  - destruct (less x y) eqn:E.
    + constructor; [now constructor|]. constructor.
      unfold less in *. apply Z.ltb_lt in E. apply Z.ltb_ge. lia.
    + constructor; [exact IH|]. now apply insert_HdRel.
Qed.

Lemma insertionSort_sorts : sorts insertionSort.
Proof.
  intros l. unfold insertionSort.
  enough (forall acc, ascending acc ->
            Permutation (acc ++ l) (fold_left (fun s x => insert x s) l acc) /\
            ascending (fold_left (fun s x => insert x s) l acc)) as H.
  { apply (H []). constructor. }
  induction l as [|x l IH]; intros acc Hacc; simpl.
  - now rewrite app_nil_r.
  - destruct (IH (insert x acc) (insert_ascending x acc Hacc)) as [Hp Hs].
    split; [|exact Hs]. rewrite <- Hp, <- insert_perm. simpl.
    symmetry. apply Permutation_middle.
Qed.

(** *** SJF *)

Lemma clamp_max w : (if w <? 0 then 0 else w) = Z.max 0 w.
Proof. destruct (Z.ltb_spec w 0); lia. Qed.

Lemma SJF_body_clamps st p :
  SJF_body st p =
  if 0 <? ArrivalTime p
  then emit st p (serviceTime st) (Z.max 0 (waitingTime (FCFS_body st p)))
  else FCFS_body st p.
Proof.
  unfold SJF_body, FCFS_body. destruct (0 <? ArrivalTime p); [|reflexivity].
  simpl. now rewrite clamp_max.
Qed.

(** C4.  SJF first sorts the batch ascending by burst duration and then runs
    the loop of FCFS on the sorted batch, with one change: the waiting time
    [clock - arrival] of a process with a positive arrival time is clamped
    to at least 0.  A process with arrival time 0 (or less) gets the waiting
    time of the row before it.  The clock before the [i]-th sorted process
    is the [int64] sum of the bursts sorted before it, whatever the arrival
    times: no idle gap is ever inserted. *)
Theorem SJF_sorts_then_clamps (sortSlice : sorter) (title : string)
    (processes : list Process) :
  sorts sortSlice ->
  let sorted := sortSlice processes in
  let out := SJFSchedule sortSlice title processes in
  Permutation processes sorted /\ ascending sorted /\
  out = finish title (length sorted) (fold_left SJF_body sorted loop_init) /\
  (forall st p,
     SJF_body st p =
     if 0 <? ArrivalTime p
     then emit st p (serviceTime st) (Z.max 0 (waitingTime (FCFS_body st p)))
     else FCFS_body st p) /\
  forall i p, sorted !! i = Some p ->
    let clock := Int64.sum (BurstDuration <$> take i sorted) in
    serviceTime (SJF_loop (take i sorted)) = clock /\
    exists r g,
      scheduleOf out !! i = Some r /\ ganttOf out !! i = Some g /\
      str colPID r = Some (ProcessID p) /\ PID g = ProcessID p /\
      Stop g = Int64.add clock (BurstDuration p) /\
      (0 < ArrivalTime p ->
       num colWaiting r = Some (Z.max 0 (Int64.sub clock (ArrivalTime p)))) /\
      (ArrivalTime p <= 0 ->
       num colWaiting r = previous_waiting (scheduleOf out) i).
Proof.
  intros Hsort sorted out. destruct (Hsort processes) as [Hperm Hasc].
  split; [exact Hperm|]. split; [exact Hasc|]. split; [reflexivity|].
  split; [exact SJF_body_clamps|].
  intros i p Hi clock. subst out. unfold SJFSchedule. fold sorted.
  rewrite scheduleOf_finish, ganttOf_finish.
  split; [apply SJF_clock|].
  destruct (loop_lookup SJF_body SJF_body_schedule SJF_body_gantt
              sorted i p Hi) as [Hr Hg].
  pose proof (lookup_lt_Some _ _ _ Hi) as Hlt.
  pose proof (loop_previous_waiting SJF_body SJF_body_schedule
                SJF_body_gantt sorted i ltac:(lia)) as Hprev.
  fold (SJF_loop sorted) in Hr, Hg, Hprev |- *.
  rewrite (take_lookup_snoc _ _ _ Hi), loop_snoc in Hr, Hg.
  fold (SJF_loop (take i sorted)) in Hr, Hg, Hprev.
  eexists _, _. split; [exact Hr|]. split; [exact Hg|].
  split; [reflexivity|]. split; [reflexivity|].
  split; [simpl; now rewrite SJF_clock|].
  unfold SJF_body. split; intros Ha.
  - apply Z.ltb_lt in Ha. rewrite Ha. simpl.
    now rewrite SJF_clock, clamp_max.
  - apply Z.ltb_ge in Ha. rewrite Ha. simpl. now rewrite Hprev.
Qed.

Lemma SJF_sorts_then_clamps_witness :
  exists r,
    scheduleOf (SJFSchedule insertionSort "SJF" [P1; P2; P3]) !! 0%nat = Some r /\
    num colWaiting r = Some 0.
Proof.
  destruct (SJF_sorts_then_clamps insertionSort "SJF" [P1; P2; P3]
              insertionSort_sorts)
    as (_ & _ & _ & _ & H).
  destruct (H 0%nat P2 eq_refl) as (_ & r & g & Hr & _ & _ & _ & _ & Hw & _).
  exists r. split; [exact Hr|]. apply Hw. reflexivity.
Defined.

(** *** SJF-priority *)

Lemma fold_left_ext {A B} (f g : A -> B -> A) (l : list B) (a : A) :
  (forall a b, f a b = g a b) -> fold_left f l a = fold_left g l a.
Proof.
  intros H. revert a. induction l as [|b l IH]; intros a; simpl; [done|].
  now rewrite H, IH.
Qed.

Lemma SJFPriority_body_idles st p :
  SJFPriority_body st p = SJF_body (idle_until_ready st p) p.
Proof.
  unfold SJFPriority_body, SJF_body, idle_until_ready.
  destruct (serviceTime st <? ArrivalTime p); reflexivity.
Qed.

(** C5.  SJF-priority is SJF with one more step: the body of its loop is the
    body of SJF's loop run after the clock was advanced to the arrival of
    the process when it was behind ([serviceTime < ArrivalTime]), and left
    alone otherwise; the sort and the aggregates are those of SJF.  A process
    with positive arrival time that the CPU had to idle for waits 0. *)
Theorem SJFPriority_is_SJF_after_idling (sortSlice : sorter) (title : string)
    (processes : list Process) :
  (forall st p, SJFPriority_body st p = SJF_body (idle_until_ready st p) p) /\
  (forall st p,
     (serviceTime st < ArrivalTime p ->
      serviceTime (idle_until_ready st p) = ArrivalTime p) /\
     (ArrivalTime p <= serviceTime st -> idle_until_ready st p = st) /\
     waitingTime (idle_until_ready st p) = waitingTime st /\
     schedule (idle_until_ready st p) = schedule st /\
     gantt (idle_until_ready st p) = gantt st) /\
  (forall st p,
     serviceTime st < ArrivalTime p -> 0 < ArrivalTime p ->
     waitingTime (SJFPriority_body st p) = 0) /\
  SJFSchedule sortSlice title processes =
    finish title (length (sortSlice processes))
      (fold_left SJF_body (sortSlice processes) loop_init) /\
  SJFPrioritySchedule sortSlice title processes =
    finish title (length (sortSlice processes))
      (fold_left (fun st p => SJF_body (idle_until_ready st p) p)
         (sortSlice processes) loop_init).
Proof.
  split; [exact SJFPriority_body_idles|]. split.
  { intros st p. unfold idle_until_ready.
    destruct (Z.ltb_spec (serviceTime st) (ArrivalTime p));
      repeat split; intros; try reflexivity; lia. }
  split.
  { intros st p H1 H2. unfold SJFPriority_body.
    apply Z.ltb_lt in H1, H2. rewrite H1, H2. simpl.
    now rewrite Int64Facts.sub_diag. }
  split; [reflexivity|].
  unfold SJFPrioritySchedule, SJFPriority_loop. f_equal.
  apply fold_left_ext, SJFPriority_body_idles.
Qed.

(** *** Counted loops *)

(** The rule of a counted loop: an invariant that holds before the loop and
    is kept by every iteration, none of which panics, holds after it, and the
    loop does not panic. *)
Lemma forM_invariant {S} (body : S -> nat -> option S) (I : nat -> S -> Prop)
    (k a : nat) (s : S) :
  I a s ->
  (forall i s, (a <= i < a + k)%nat -> I i s ->
     exists s', body s i = Some s' /\ I (Datatypes.S i) s') ->
  exists s', forM body (seq a k) s = Some s' /\ I (a + k)%nat s'.
Proof.
  revert a s. induction k as [|k IH]; intros a s Ha Hstep; simpl.
  - exists s. split; [done|]. now rewrite Nat.add_0_r.
  - destruct (Hstep a s ltac:(lia) Ha) as (s1 & -> & H1). simpl.
    destruct (IH (Datatypes.S a) s1 H1) as (s2 & E & H2).
    { intros i s' Hi. apply Hstep. lia. }
    exists s2. split; [exact E|]. now rewrite Nat.add_succ_r.
Qed.

Lemma for_range_invariant {S} (body : S -> nat -> option S)
    (I : nat -> S -> Prop) (n : nat) (s : S) :
  I 0%nat s ->
  (forall i s, (i < n)%nat -> I i s ->
     exists s', body s i = Some s' /\ I (Datatypes.S i) s') ->
  exists s', for_range n body s = Some s' /\ I n s'.
Proof.
  intros H0 Hstep. apply (forM_invariant body I n 0 s H0).
  intros i s' Hi. apply Hstep. lia.
Qed.

Lemma store_middle {A} (l1 l2 : list A) (x y : A) (i : nat) :
  length l1 = i -> store i y (l1 ++ x :: l2) = Some (l1 ++ y :: l2).
Proof.
  intros <-. unfold store. rewrite decide_True.
  - f_equal. rewrite insert_app_r_alt by done. now rewrite Nat.sub_diag.
  - rewrite length_app. simpl. lia.
Qed.

Lemma lookup_middle {A} (l1 l2 : list A) (x : A) (i : nat) :
  length l1 = i -> (l1 ++ x :: l2) !! i = Some x.
Proof. intros <-. now apply list_lookup_middle. Qed.

Lemma length_take_lookup {A} (l : list A) (i : nat) (x : A) :
  l !! i = Some x -> length (take i l) = i.
Proof.
  intros H. apply lookup_lt_Some in H. rewrite length_take. lia.
Qed.

Lemma replicate_pred {A} (n i : nat) (x : A) :
  (i < n)%nat -> replicate (n - i) x = x :: replicate (n - Datatypes.S i) x.
Proof.
  intros H. replace (n - i)%nat with (Datatypes.S (n - Datatypes.S i)) by lia.
  reflexivity.
Qed.

(** *** The loops of RR *)

Lemma RR_fill (ps : list Process) :
  for_range (length ps) (RR.fill_body ps) (RR.init (length ps))
  = Some (RR.mkState (BurstDuration <$> ps) (ArrivalTime <$> ps)
            (replicate (length ps) 0) (replicate (length ps) 0)
            (replicate (length ps) []) 0 0 0).
Proof.
  set (n := length ps).
  destruct (for_range_invariant (RR.fill_body ps)
    (fun i st => st =
       RR.mkState ((BurstDuration <$> take i ps) ++ replicate (n - i) 0)
         ((ArrivalTime <$> take i ps) ++ replicate (n - i) 0)
         (replicate n 0) (replicate n 0) (replicate n []) 0 0 0)
    n (RR.init n)) as (st & E & ->).
  - unfold RR.init. now rewrite Nat.sub_0_r.
  - intros i st Hi ->.
    destruct (lookup_lt_is_Some_2 ps i Hi) as [p Hp].
    unfold RR.fill_body. simpl. rewrite Hp. simpl.
    rewrite !(replicate_pred n i) by done.
    rewrite !store_middle
      by (rewrite length_fmap; exact (length_take_lookup _ _ _ Hp)).
    simpl. eexists. split; [reflexivity|].
    rewrite (take_S_r _ _ _ Hp), !fmap_app, <- !app_assoc. reflexivity.
  - rewrite E. unfold n. rewrite take_ge, Nat.sub_diag by done.
    simpl. now rewrite !app_nil_r.
Qed.

Lemma rr_clock_snoc (l : list Process) (p : Process) :
  rr_clock (l ++ [p]) = rr_advance (rr_clock l) (BurstDuration p).
Proof. unfold rr_clock. now rewrite fmap_app, fold_left_app. Qed.

Lemma RR_first_pass (ps : list Process) W Sch TT TW :
  RR.pass (length ps)
    (RR.mkState (BurstDuration <$> ps) (ArrivalTime <$> ps) W
       (replicate (length ps) 0) Sch 0 TT TW)
  = Some (RR.mkState (rr_remaining <$> ps) (ArrivalTime <$> ps) W
            (imap (rr_turnaround ps) ps) Sch (rr_clock ps) TT TW,
          forallb rr_skipped ps).
Proof.
  set (n := length ps). unfold RR.pass.
  destruct (for_range_invariant RR.scan_body
    (fun i s => s =
       (RR.mkState ((rr_remaining <$> take i ps) ++ (BurstDuration <$> drop i ps))
          (ArrivalTime <$> ps) W
          (imap (rr_turnaround ps) (take i ps) ++ replicate (n - i) 0)
          Sch (rr_clock (take i ps)) TT TW,
        forallb rr_skipped (take i ps)))
    n (RR.mkState (BurstDuration <$> ps) (ArrivalTime <$> ps) W
         (replicate n 0) Sch 0 TT TW, true)) as (s & E & ->).
  - rewrite take_0, drop_0, Nat.sub_0_r. reflexivity.
  - intros i s Hi ->.
    destruct (lookup_lt_is_Some_2 ps i Hi) as [p Hp].
    pose proof (length_take_lookup _ _ _ Hp) as Hlen.
    rewrite (take_S_r _ _ _ Hp), (drop_S _ _ _ Hp).
    rewrite imap_app, !fmap_app, forallb_app, rr_clock_snoc.
    rewrite Hlen. cbn [imap]. rewrite Nat.add_0_r, <- !app_assoc.
    unfold RR.scan_body. cbn [RR.remainingTime fmap list_fmap].
    rewrite lookup_middle by now rewrite length_fmap.
    cbn [mbind option_bind].
    unfold rr_remaining, rr_advance, rr_turnaround, rr_skipped.
    cbn [imap app forallb].
    destruct (0 <? BurstDuration p) eqn:Hb.
    + cbn [RR.currentTime RR.arrivalTime RR.turnaroundTime].
      rewrite list_lookup_fmap, Hp. cbn [fmap option_fmap option_map mbind option_bind].
      rewrite (replicate_pred n i) by done.
      rewrite !store_middle by now rewrite ?length_imap, ?length_fmap.
      cbn [mbind option_bind].
      cbn [negb andb]. rewrite andb_false_r.
      rewrite (take_S_r _ _ _ Hp), rr_clock_snoc. unfold rr_advance.
      rewrite Hb. eexists. split; reflexivity.
    + rewrite (replicate_pred n i) by done. cbn [negb].
      rewrite !andb_true_r. eexists. split; reflexivity.
  - rewrite E. unfold n. rewrite take_ge, drop_ge, Nat.sub_diag by done.
    simpl. now rewrite !app_nil_r.
Qed.

(** A pass over processes none of which has time left changes nothing and
    reports [done]. *)
Lemma RR_idle_pass (n : nat) (st : RR.state) :
  length (RR.remainingTime st) = n ->
  Forall (fun r => r <= 0) (RR.remainingTime st) ->
  RR.pass n st = Some (st, true).
Proof.
  intros Hn Hall. unfold RR.pass.
  destruct (for_range_invariant RR.scan_body (fun _ s => s = (st, true))
              n (st, true)) as (s & E & ->); [done| |exact E].
  intros i s Hi ->.
  destruct (lookup_lt_is_Some_2 (RR.remainingTime st) i ltac:(lia)) as [r Hr].
  pose proof (proj1 (Forall_lookup _ _) Hall i r Hr) as Hle.
  unfold RR.scan_body. rewrite Hr. cbn [mbind option_bind].
  apply Z.ltb_ge in Hle. rewrite Hle. eexists. split; reflexivity.
Qed.

Lemma rr_remaining_nonpos (ps : list Process) :
  Forall (fun r => r <= 0) (rr_remaining <$> ps).
Proof.
  apply Forall_fmap, Forall_forall. intros p _. unfold rr_remaining. simpl.
  destruct (Z.ltb_spec 0 (BurstDuration p)); lia.
Qed.

(** The outer loop: the first pass does all the work; when it ran a process
    a second pass follows, which finds nothing to run and ends the loop. *)
Lemma RR_run (fuel : nat) (ps : list Process) W Sch TT TW :
  RR.run (S (S fuel)) (length ps)
    (RR.mkState (BurstDuration <$> ps) (ArrivalTime <$> ps) W
       (replicate (length ps) 0) Sch 0 TT TW)
  = Some (RR.mkState (rr_remaining <$> ps) (ArrivalTime <$> ps) W
            (imap (rr_turnaround ps) ps) Sch (rr_clock ps) TT TW,
          if forallb rr_skipped ps then 1%nat else 2%nat).
Proof.
  cbn [RR.run]. rewrite RR_first_pass. cbn [mbind option_bind].
  destruct (forallb rr_skipped ps); [reflexivity|].
  rewrite RR_idle_pass.
  - reflexivity.
  - cbn [RR.remainingTime]. now rewrite length_fmap.
  - apply rr_remaining_nonpos.
Qed.

Lemma RR_metrics (ps : list Process) (R A T : list Z) (c : Z) :
  length T = length ps ->
  for_range (length ps) (RR.metrics_body ps)
    (RR.mkState R A (replicate (length ps) 0) T (replicate (length ps) []) c 0 0)
  = Some (RR.mkState R A
            (zip_with (fun p t => Int64.sub t (BurstDuration p)) ps T) T
            (zip_with rr_line ps T) c (Int64.sum T)
            (Int64.sum (zip_with (fun p t => Int64.sub t (BurstDuration p)) ps T))).
Proof.
  intros HT. set (n := length ps). set (w := fun p t => Int64.sub t (BurstDuration p)).
  destruct (for_range_invariant (RR.metrics_body ps)
    (fun i st => st =
       RR.mkState R A
         (zip_with w (take i ps) (take i T) ++ replicate (n - i) 0) T
         (zip_with rr_line (take i ps) (take i T) ++ replicate (n - i) [])
         c (Int64.sum (take i T))
         (Int64.sum (zip_with w (take i ps) (take i T))))
    n (RR.mkState R A (replicate n 0) T (replicate n []) c 0 0))
    as (st & E & ->).
  - rewrite !take_0, Nat.sub_0_r. reflexivity.
  - intros i st Hi ->.
    destruct (lookup_lt_is_Some_2 ps i Hi) as [p Hp].
    destruct (lookup_lt_is_Some_2 T i ltac:(lia)) as [t Ht].
    pose proof (length_take_lookup _ _ _ Hp) as Lp.
    pose proof (length_take_lookup _ _ _ Ht) as Lt.
    assert (forall {B} (f : Process -> Z -> B),
              length (zip_with f (take i ps) (take i T)) = i) as Lz.
    { intros B f. rewrite length_zip_with. lia. }
    unfold RR.metrics_body. cbn [RR.turnaroundTime RR.waitingTime RR.schedule
      RR.totalTurnaround RR.totalWaiting RR.remainingTime RR.arrivalTime
      RR.currentTime].
    rewrite Ht, Hp. cbn [mbind option_bind].
    rewrite !(replicate_pred n i) by done.
    rewrite store_middle by apply Lz. cbn [mbind option_bind].
    rewrite lookup_middle by apply Lz. cbn [mbind option_bind].
    rewrite store_middle by apply Lz. cbn [mbind option_bind].
    eexists. split; [reflexivity|].
    rewrite (take_S_r _ _ _ Hp), (take_S_r _ _ _ Ht).
    rewrite !zip_with_app by lia. cbn [zip_with].
    rewrite !sum_snoc, <- !app_assoc. reflexivity.
  - rewrite E. unfold n. rewrite !take_ge, Nat.sub_diag by lia.
    simpl. now rewrite !app_nil_r.
Qed.

(** RR never panics, and two iterations of its outer loop always suffice. *)
Lemma RR_compute (fuel : nat) (ps : list Process) :
  RR.compute (S (S fuel)) ps = Some (rr_final ps, rr_passes ps).
Proof.
  unfold RR.compute. rewrite RR_fill. cbn [mbind option_bind].
  rewrite RR_run. cbn [mbind option_bind].
  fold (rr_turnarounds ps).
  rewrite RR_metrics by apply length_imap.
  reflexivity.
Qed.

Lemma RRSchedule_closed (fuel : nat) (sortSlice : sorter) title ps :
  RRSchedule (S (S fuel)) sortSlice title ps
  = Some (RR.finish title (length (sortSlice ps)) (rr_final (sortSlice ps))).
Proof. unfold RRSchedule. now rewrite RR_compute. Qed.

Lemma scheduleOf_RR_finish title n st :
  scheduleOf (RR.finish title n st) = RR.schedule st.
Proof. unfold scheduleOf, RR.finish. simpl. now rewrite app_nil_r. Qed.

(** *** The identities of the data model *)

Lemma rr_turnaround_range ps i p : Int64.in_range (rr_turnaround ps i p).
Proof.
  unfold rr_turnaround. destruct (0 <? BurstDuration p).
  - apply Int64Facts.sub_range.
  - apply Int64Facts.in_range_0.
Qed.

Lemma rr_rows_lookup ps i r :
  rr_rows ps !! i = Some r ->
  exists p, ps !! i = Some p /\ r = rr_line p (rr_turnaround ps i p).
Proof.
  unfold rr_rows, rr_turnarounds. intros H.
  apply lookup_zip_with_Some in H as (p & t & -> & Hp & Ht).
  apply list_lookup_imap_Some in Ht as (q & Hq & ->).
  exists p. split; [exact Hp|]. congruence.
Qed.

(** C1, as the code has it.  Every row FCFS, SJF and SJF-priority produce
    satisfies, in [int64] arithmetic, completion = arrival + waiting + burst
    and turnaround = waiting + burst.  RR returns (two iterations of its
    outer loop suffice), and every row it produces satisfies
    turnaround = waiting + burst; its rows have six columns and carry no
    completion time. *)
Theorem metrics_identities (sortSlice : sorter) (fuel : nat) (title : string)
    (processes : list Process) :
  Forall row_identities (scheduleOf (FCFSSchedule title processes)) /\
  Forall row_identities (scheduleOf (SJFSchedule sortSlice title processes)) /\
  Forall row_identities
    (scheduleOf (SJFPrioritySchedule sortSlice title processes)) /\
  exists calls,
    RRSchedule (S (S fuel)) sortSlice title processes = Some calls /\
    Forall (fun r => row_turnaround_identity r /\ r !! colCompletion = None)
      (scheduleOf calls).
Proof.
  unfold FCFSSchedule, SJFSchedule, SJFPrioritySchedule.
  rewrite !scheduleOf_finish.
  split; [apply loop_rows_Forall;
          [exact FCFS_body_schedule | exact line_identities]|].
  split; [apply loop_rows_Forall;
          [exact SJF_body_schedule | exact line_identities]|].
  split; [apply loop_rows_Forall;
          [exact SJFPriority_body_schedule | exact line_identities]|].
  eexists. split; [apply RRSchedule_closed|].
  rewrite scheduleOf_RR_finish. cbn [rr_final RR.schedule].
  apply Forall_lookup_2. intros i r Hr.
  apply rr_rows_lookup in Hr as (p & _ & ->).
  split; [|reflexivity].
  exists (BurstDuration p),
    (Int64.sub (rr_turnaround (sortSlice processes) i p) (BurstDuration p)),
    (rr_turnaround (sortSlice processes) i p).
  repeat split. symmetry. apply Int64Facts.sub_add, rr_turnaround_range.
Qed.

(** C1 as stated fails for RR: the one row RR produces for the batch [P1]
    has no completion time, so the identity on it cannot hold. *)
Lemma RR_row_without_completion :
  exists calls r,
    RRSchedule 2 insertionSort "RR" [P1] = Some calls /\
    r ∈ scheduleOf calls /\ ~ row_identities r.
Proof.
  eexists _, [Str "P1"; Num 0; Num 5; Num 0; Num 0; Num 5].
  split; [vm_compute; reflexivity|]. split.
  - cbn. apply list_elem_of_here.
  - intros (a & b & w & t & c & _ & _ & _ & _ & Hc & _). discriminate Hc.
Qed.

(** *** Waiting times of SJF and SJF-priority *)

Lemma line_waiting_nonneg p w : 0 <= w -> waiting_nonneg (line p w).
Proof. intros H. exists w. split; [reflexivity|exact H]. Qed.

Lemma SJF_body_nonneg st p :
  0 <= waitingTime st -> 0 <= waitingTime (SJF_body st p).
Proof.
  intros H. unfold SJF_body. cbn [emit waitingTime].
  destruct (0 <? ArrivalTime p); [|exact H]. cbv zeta.
  rewrite clamp_max. lia.
Qed.

Lemma SJFPriority_body_nonneg st p :
  0 <= waitingTime st -> 0 <= waitingTime (SJFPriority_body st p).
Proof.
  intros H. unfold SJFPriority_body. cbn [emit waitingTime].
  destruct (0 <? ArrivalTime p); [|exact H]. cbv zeta.
  rewrite clamp_max. lia.
Qed.

(** C9.  Every row of SJF and of SJF-priority has a waiting time that is at
    least 0, whatever the batch: the clamp makes a computed waiting time
    non-negative, and the value carried over to a process with arrival time
    0 starts at 0 and is one of those.  FCFS and RR do produce negative
    waiting times, for the batch of the one process [Late]. *)
Theorem SJF_waiting_never_negative (sortSlice : sorter) (title : string)
    (processes : list Process) :
  Forall waiting_nonneg (scheduleOf (SJFSchedule sortSlice title processes)) /\
  Forall waiting_nonneg
    (scheduleOf (SJFPrioritySchedule sortSlice title processes)) /\
  Exists (fun r => ~ waiting_nonneg r) (scheduleOf (FCFSSchedule title [Late])) /\
  exists calls,
    RRSchedule 2 insertionSort title [Late] = Some calls /\
    Exists (fun r => ~ waiting_nonneg r) (scheduleOf calls).
Proof.
  unfold SJFSchedule, SJFPrioritySchedule, FCFSSchedule.
  rewrite !scheduleOf_finish.
  split.
  { apply (loop_rows_Forall_carried SJF_body SJF_body_schedule (fun w => 0 <= w));
      [lia | exact SJF_body_nonneg | exact line_waiting_nonneg]. }
  split.
  { apply (loop_rows_Forall_carried SJFPriority_body SJFPriority_body_schedule
             (fun w => 0 <= w));
      [lia | exact SJFPriority_body_nonneg | exact line_waiting_nonneg]. }
  split.
  { apply Exists_cons_hd. intros (w & Hw & Hle).
    vm_compute in Hw. injection Hw as <-. lia. }
  eexists. split; [apply RRSchedule_closed|].
  rewrite scheduleOf_RR_finish. apply Exists_cons_hd.
  intros (w & Hw & Hle). vm_compute in Hw. injection Hw as <-. lia.
Qed.

(** *** Scenario C *)

(** However the batch of the scenarios is ordered, and however the sort
    treats ties, it is sorted into [P2; P1; P3]: the bursts differ. *)
Lemma scenario_sorted (sortSlice : sorter) (batch : list Process) :
  sorts sortSlice -> Permutation [P1; P2; P3] batch ->
  sortSlice batch = [P2; P1; P3].
Proof.
  intros Hsort Hbatch. destruct (Hsort batch) as [Hperm Hasc].
  apply (Permutation_trans Hbatch) in Hperm. clear Hbatch.
  pose proof (Permutation_length Hperm) as Hlen.
  destruct (sortSlice batch) as [|a [|b [|c [|? ?]]]]; try discriminate Hlen.
  assert (NoDup [a; b; c]) as Hnd.
  { rewrite <- Hperm. repeat apply NoDup_cons_2; try apply NoDup_nil_2;
      rewrite ?elem_of_cons, ?elem_of_nil; intros H;
      repeat destruct H as [H|H]; try discriminate H; exact H. }
  assert (BurstDuration a <= BurstDuration b <= BurstDuration c) as Hle.
  { unfold ascending, less in Hasc. inversion_clear Hasc as [|? ? Hbc Hab].
    inversion_clear Hbc as [|? ? _ Hbc']. inversion_clear Hab as [|? ? Hab'].
    inversion_clear Hbc' as [|? ? Hbc]. apply Z.ltb_ge in Hab', Hbc. lia. }
  assert (forall x, x ∈ [a; b; c] -> x = P1 \/ x = P2 \/ x = P3) as Hin.
  { intros x Hx. apply list_elem_of_In in Hx.
    apply (Permutation_in _ (Permutation_sym Hperm)) in Hx. simpl in Hx.
    intuition auto. }
  apply NoDup_cons in Hnd as [Hab Hnd]. apply NoDup_cons in Hnd as [Hbc _].
  rewrite !elem_of_cons, elem_of_nil in Hab. rewrite elem_of_cons, elem_of_nil in Hbc.
  destruct (Hin a) as [ -> | [ -> | -> ] ]; [apply list_elem_of_In; simpl; tauto|..];
    (destruct (Hin b) as [ -> | [ -> | -> ] ]; [apply list_elem_of_In; simpl; tauto|..]);
    (destruct (Hin c) as [ -> | [ -> | -> ] ]; [apply list_elem_of_In; simpl; tauto|..]);
    simpl in Hle; try lia; try reflexivity; exfalso; tauto.
Qed.

(** C2.  On the batch of the scenarios, which every sort that keeps the
    promise of [sort.Slice] orders as P2 (burst 3, arrival 1), P1 (burst 5,
    arrival 0), P3 (burst 8, arrival 2), RR computes the turnaround times
    2, 8, 14 and the waiting times -1, 3, 6, in that order: the waiting
    time of P2 is -1, which is not a waiting time of at least 0. *)
Theorem RR_scenario_C (sortSlice : sorter) (fuel : nat) (title : string)
    (batch : list Process) :
  sorts sortSlice -> Permutation [P1; P2; P3] batch ->
  exists calls,
    RRSchedule (S (S fuel)) sortSlice title batch = Some calls /\
    str colPID <$> scheduleOf calls = [Some "P2"; Some "P1"; Some "P3"]%string /\
    num colBurst <$> scheduleOf calls = [Some 3; Some 5; Some 8] /\
    num colArrival <$> scheduleOf calls = [Some 1; Some 0; Some 2] /\
    num colTurnaround <$> scheduleOf calls = [Some 2; Some 8; Some 14] /\
    num colWaiting <$> scheduleOf calls = [Some (-1); Some 3; Some 6] /\
    Exists (fun r => str colPID r = Some "P2"%string /\
                     num colWaiting r = Some (-1) /\ ~ waiting_nonneg r)
      (scheduleOf calls).
Proof.
  intros Hsort Hbatch. eexists. split; [apply RRSchedule_closed|].
  rewrite scheduleOf_RR_finish, (scenario_sorted _ _ Hsort Hbatch).
  repeat (split; [vm_compute; reflexivity|]).
  apply Exists_cons_hd. repeat (split; [vm_compute; reflexivity|]).
  intros (w & Hw & Hle). vm_compute in Hw. injection Hw as <-. lia.
Qed.

Lemma RR_scenario_C_witness :
  exists calls,
    RRSchedule 2 insertionSort "RR" [P1; P2; P3] = Some calls /\
    num colWaiting <$> scheduleOf calls = [Some (-1); Some 3; Some 6].
Proof.
  destruct (RR_scenario_C insertionSort 0 "RR" [P1; P2; P3] insertionSort_sorts
              (Permutation_refl _))
    as (calls & Hc & _ & _ & _ & _ & Hw & _).
  exists calls. split; [exact Hc | exact Hw].
Defined.

(** *** The outer loop of RR *)

Lemma rr_passes_1 (ps : list Process) :
  rr_passes ps = 1%nat <-> Forall (fun p => BurstDuration p <= 0) ps.
Proof.
  unfold rr_passes. destruct (forallb rr_skipped ps) eqn:E.
  - split; [intros _|reflexivity].
    apply Forall_forall. intros p Hp. apply list_elem_of_In in Hp.
    pose proof (proj1 (forallb_forall _ _) E p Hp) as H.
    unfold rr_skipped in H. apply negb_true_iff, Z.ltb_ge in H. exact H.
  - split; [discriminate|]. intros H. exfalso.
    assert (forallb rr_skipped ps = true) as E'; [|congruence].
    apply forallb_forall. intros p Hp. apply list_elem_of_In in Hp.
    pose proof (proj1 (Forall_forall _ _) H p Hp) as Hle.
    unfold rr_skipped. now apply negb_true_iff, Z.ltb_ge.
Qed.

(** C6, as the code has it.  On every batch the outer loop of RR ends, and
    RR returns: after one scanning pass when no process has a positive
    burst, after two otherwise.  The first pass runs every process with a
    positive remaining time to completion in one step (the clock is
    advanced by the whole burst, the turnaround is the clock less the
    arrival, the remaining time becomes 0) and leaves no positive remaining
    time; the second pass runs nothing and ends the loop.  There is no
    quantum and nothing is run twice. *)
Theorem RR_outer_loop_terminates (sortSlice : sorter) (fuel : nat)
    (title : string) (processes : list Process) :
  let sorted := sortSlice processes in
  let n := length sorted in
  exists st0 st1,
    for_range n (RR.fill_body sorted) (RR.init n) = Some st0 /\
    RR.remainingTime st0 = BurstDuration <$> sorted /\
    RR.pass n st0 = Some (st1, forallb rr_skipped sorted) /\
    RR.currentTime st1 = rr_clock sorted /\
    Forall (fun r => r <= 0) (RR.remainingTime st1) /\
    (forall i p, sorted !! i = Some p ->
       (0 < BurstDuration p ->
        rr_clock (take (S i) sorted)
        = Int64.add (rr_clock (take i sorted)) (BurstDuration p) /\
        RR.turnaroundTime st1 !! i
        = Some (Int64.sub (rr_clock (take (S i) sorted)) (ArrivalTime p)) /\
        RR.remainingTime st1 !! i = Some 0) /\
       (BurstDuration p <= 0 ->
        rr_clock (take (S i) sorted) = rr_clock (take i sorted) /\
        RR.turnaroundTime st1 !! i = Some 0 /\
        RR.remainingTime st1 !! i = Some (BurstDuration p))) /\
    RR.pass n st1 = Some (st1, true) /\
    RR.run (S (S fuel)) n st0 = Some (st1, rr_passes sorted) /\
    (rr_passes sorted = 1%nat <->
     Forall (fun p => BurstDuration p <= 0) sorted) /\
    (rr_passes sorted <> 1%nat ->
     rr_passes sorted = 2%nat /\ RR.run 1 n st0 = None) /\
    exists calls, RRSchedule (S (S fuel)) sortSlice title processes = Some calls.
Proof.
  intros sorted n. subst n. eexists _, _.
  split; [apply RR_fill|]. split; [reflexivity|].
  split; [apply RR_first_pass|]. split; [reflexivity|].
  split; [apply rr_remaining_nonpos|]. split.
  { intros i p Hp. cbn [RR.turnaroundTime RR.remainingTime].
    rewrite list_lookup_imap, list_lookup_fmap, Hp, (take_S_r _ _ _ Hp).
    rewrite rr_clock_snoc. unfold rr_turnaround, rr_remaining, rr_advance.
    rewrite (take_S_r _ _ _ Hp), rr_clock_snoc. unfold rr_advance.
    split; intros Hb.
    - apply Z.ltb_lt in Hb. rewrite Hb. repeat split; simpl; now rewrite Hb.
    - apply Z.ltb_ge in Hb. rewrite Hb. repeat split; simpl; now rewrite Hb. }
  split.
  { apply RR_idle_pass; [apply length_fmap|apply rr_remaining_nonpos]. }
  split; [apply RR_run|]. split; [apply rr_passes_1|]. split.
  { unfold rr_passes. cbn [RR.run]. rewrite RR_first_pass.
    destruct (forallb rr_skipped sorted); [congruence|]. now split. }
  eexists. apply RRSchedule_closed.
Qed.

(** C6 as stated fails: on the batch [P1] the loop does not end after one
    scanning pass; it ends after the second. *)
Lemma RR_needs_second_pass :
  RR.compute 1 (insertionSort [P1]) = None /\
  snd <$> RR.compute 2 (insertionSort [P1]) = Some 2%nat.
Proof. split; vm_compute; reflexivity. Qed.

(** *** The empty batch *)

Lemma sorts_nil (sortSlice : sorter) : sorts sortSlice -> sortSlice [] = [].
Proof. intros H. destruct (H []) as [Hp _]. now apply Permutation_nil. Qed.

(** C7, as the code has it.  No policy rejects the empty batch: each makes
    all its renderer calls, with an empty table, and the three aggregates it
    hands over (average waiting time, average turnaround time, throughput)
    are the quotient 0/0, which is NaN. *)
Theorem empty_batch_renders_NaN (sortSlice : sorter) (fuel : nat)
    (title : string) :
  sorts sortSlice ->
  PrimFloat.is_nan nan = true /\
  FCFSSchedule title []
  = [outputTitle title; outputGantt []; outputSchedule [] nan nan nan] /\
  SJFSchedule sortSlice title []
  = [outputTitle title; outputGantt []; outputSchedule [] nan nan nan] /\
  SJFPrioritySchedule sortSlice title []
  = [outputTitle title; outputGantt []; outputSchedule [] nan nan nan] /\
  RRSchedule (S fuel) sortSlice title []
  = Some [outputTitle title; outputSchedule [] nan nan nan].
Proof.
  intros Hsort. unfold SJFSchedule, SJFPrioritySchedule, RRSchedule.
  rewrite (sorts_nil _ Hsort). repeat split.
Qed.

Lemma empty_batch_renders_NaN_witness :
  RRSchedule 1 insertionSort "RR" []
  = Some [outputTitle "RR"; outputSchedule [] nan nan nan].
Proof.
  exact (proj2 (proj2 (proj2 (proj2
    (empty_batch_renders_NaN insertionSort 0 "RR" insertionSort_sorts))))).
Defined.

(** C7 as stated fails: on the empty batch FCFS (and RR likewise) raises
    nothing and hands the renderer NaN for every aggregate. *)
Lemma empty_batch_is_not_rejected :
  aggregatesOf (FCFSSchedule "FCFS" []) = [(nan, nan, nan)] /\
  aggregatesOf <$> RRSchedule 1 insertionSort "RR" [] = Some [(nan, nan, nan)] /\
  PrimFloat.is_nan nan = true.
Proof. repeat split. Qed.

(** *** The batch of one process *)

Lemma sorts_singleton (sortSlice : sorter) p :
  sorts sortSlice -> sortSlice [p] = [p].
Proof.
  intros H. destruct (H [p]) as [Hp _]. now apply Permutation_length_1_inv.
Qed.

Lemma single_waiting_clamped a :
  Int64.in_range a -> 0 < a -> Z.max 0 (Int64.sub 0 a) = 0.
Proof.
  intros Ha Hpos. unfold Int64.sub. rewrite Int64Facts.wrap_id.
  - lia.
  - unfold Int64.in_range, Int64.min_int, Int64.max_int in *. lia.
Qed.

Lemma SJF_single_waiting p :
  wf_process p -> waitingTime (SJF_body loop_init p) = 0.
Proof.
  intros [Ha _]. unfold SJF_body. cbn [emit waitingTime serviceTime loop_init].
  destruct (Z.ltb_spec 0 (ArrivalTime p)); [|reflexivity]. cbv zeta.
  rewrite clamp_max. now apply single_waiting_clamped.
Qed.

Lemma SJFPriority_single_waiting p :
  wf_process p -> waitingTime (SJFPriority_body loop_init p) = 0.
Proof.
  intros [Ha _]. unfold SJFPriority_body.
  cbn [emit waitingTime serviceTime loop_init].
  destruct (Z.ltb_spec 0 (ArrivalTime p)); [|reflexivity]. cbv zeta.
  now rewrite Int64Facts.sub_diag.
Qed.

Lemma line_zero_wait p :
  wf_process p ->
  line p 0 =
  [ Str (ProcessID p); Num (Priority p); Num (BurstDuration p);
    Num (ArrivalTime p); Num 0; Num (BurstDuration p);
    Num (Int64.add (ArrivalTime p) (BurstDuration p)) ].
Proof.
  intros [Ha Hb]. unfold line.
  rewrite !Int64Facts.add_0_r by (exact Hb || apply Int64Facts.add_range).
  now rewrite (Int64Facts.add_comm (BurstDuration p)).
Qed.

Lemma single_throughput title (body : loop_state -> Process -> loop_state) p :
  schedule (body loop_init p) = [line p (waitingTime (body loop_init p))] ->
  lastCompletion (body loop_init p)
  = float64 (Int64.add (Int64.add (BurstDuration p) (ArrivalTime p))
               (waitingTime (body loop_init p))) ->
  wf_process p -> waitingTime (body loop_init p) = 0 ->
  scheduleOf (finish title 1 (body loop_init p))
  = [[ Str (ProcessID p); Num (Priority p); Num (BurstDuration p);
       Num (ArrivalTime p); Num 0; Num (BurstDuration p);
       Num (Int64.add (ArrivalTime p) (BurstDuration p)) ]] /\
  throughputOf (finish title 1 (body loop_init p))
  = [PrimFloat.div (float64 1)
       (float64 (Int64.add (ArrivalTime p) (BurstDuration p)))].
Proof.
  intros Hs Hl Hwf Hw. rewrite scheduleOf_finish, Hs, Hw, line_zero_wait by done.
  split; [reflexivity|]. unfold throughputOf, aggregatesOf, finish.
  cbn [flat_map app fmap list_fmap snd]. rewrite Hl, Hw.
  rewrite Int64Facts.add_0_r by apply Int64Facts.add_range.
  now rewrite (Int64Facts.add_comm (BurstDuration p)).
Qed.

(** C8, as the code has it.  For a batch of exactly one process [p] (its
    fields being [int64]s): SJF and SJF-priority produce waiting time 0,
    turnaround time = burst and completion time = arrival + burst, and the
    throughput 1/completion; when the arrival time of [p] is 0 this
    completion time is the burst, and then FCFS produces the same row and
    throughput, and RR, when moreover the burst is not negative, produces
    waiting time 0, turnaround time = burst (its row has no completion
    time) and the throughput 1/burst. *)
Theorem single_process_batch (sortSlice : sorter) (fuel : nat)
    (title : string) (p : Process) :
  sorts sortSlice -> wf_process p ->
  let a := ArrivalTime p in
  let b := BurstDuration p in
  let line c :=
    [Str (ProcessID p); Num (Priority p); Num b; Num a; Num 0; Num b; Num c] in
  let one_per c := [PrimFloat.div (float64 1) (float64 c)] in
  (scheduleOf (SJFSchedule sortSlice title [p]) = [line (Int64.add a b)] /\
   throughputOf (SJFSchedule sortSlice title [p]) = one_per (Int64.add a b)) /\
  (scheduleOf (SJFPrioritySchedule sortSlice title [p]) = [line (Int64.add a b)] /\
   throughputOf (SJFPrioritySchedule sortSlice title [p])
   = one_per (Int64.add a b)) /\
  (a = 0 -> Int64.add a b = b) /\
  (a = 0 ->
   scheduleOf (FCFSSchedule title [p]) = [line b] /\
   throughputOf (FCFSSchedule title [p]) = one_per b) /\
  (a = 0 -> 0 <= b ->
   exists calls,
     RRSchedule (S (S fuel)) sortSlice title [p] = Some calls /\
     scheduleOf calls
     = [[Str (ProcessID p); Num (Priority p); Num b; Num a; Num 0; Num b]] /\
     throughputOf calls = one_per b).
Proof.
  intros Hsort Hwf a b line one_per.
  unfold SJFSchedule, SJFPrioritySchedule, FCFSSchedule.
  rewrite (sorts_singleton _ p Hsort). cbn [length].
  split; [now apply (single_throughput title SJF_body);
            try apply SJF_single_waiting|].
  split; [now apply (single_throughput title SJFPriority_body);
            try apply SJFPriority_single_waiting|].
  assert (a = 0 -> Int64.add a b = b) as Hab.
  { intros ->. apply Int64Facts.add_0_l, Hwf. }
  split; [exact Hab|]. split.
  - intros Ha. subst line one_per. cbv beta.
    destruct (single_throughput title FCFS_body p eq_refl eq_refl Hwf)
      as [H1 H2].
    { unfold FCFS_body. fold a. rewrite Ha. reflexivity. }
    fold a b in H1, H2. rewrite (Hab Ha) in H1, H2. now split.
  - intros Ha Hb. eexists. split; [apply RRSchedule_closed|].
    rewrite (sorts_singleton _ p Hsort), scheduleOf_RR_finish.
    unfold throughputOf, aggregatesOf, RR.finish, rr_final, rr_rows,
      rr_turnarounds, rr_turnaround, rr_clock, rr_advance, rr_line.
    cbn [RR.schedule RR.currentTime imap zip_with take fmap list_fmap
         fold_left flat_map app snd length].
    fold a b. rewrite Ha. subst one_per. cbv beta.
    destruct (Z.ltb_spec 0 b) as [Hpos|Hle].
    + rewrite (Int64Facts.add_0_l b) by apply Hwf.
      assert (Int64.sub b 0 = b) as ->.
      { unfold Int64.sub. rewrite Z.sub_0_r. apply Int64Facts.wrap_id, Hwf. }
      rewrite Int64Facts.sub_diag. split; reflexivity.
    + assert (b = 0) as -> by lia. split; reflexivity.
Qed.

Lemma single_process_batch_witness :
  scheduleOf (SJFSchedule insertionSort "SJF" [Late])
  = [[Str "Late"; Num 0; Num 5; Num 2; Num 0; Num 5; Num 7]].
Proof.
  refine (proj1 (proj1 (single_process_batch insertionSort 0 "SJF" Late
                          insertionSort_sorts _))).
  split; vm_compute; split; discriminate.
Defined.

(** C8 as stated fails for a process that arrives after time 0: for [Late]
    (arrival 2, burst 5), FCFS produces the waiting time -2 and the
    turnaround time 3, and SJF the completion time 7. *)
Lemma single_late_process :
  scheduleOf (FCFSSchedule "FCFS" [Late])
  = [[Str "Late"; Num 0; Num 5; Num 2; Num (-2); Num 3; Num 5]] /\
  scheduleOf (SJFSchedule insertionSort "SJF" [Late])
  = [[Str "Late"; Num 0; Num 5; Num 2; Num 0; Num 5; Num 7]].
Proof. split; vm_compute; reflexivity. Qed.

(** *** The final clock of RR *)

Lemma fold_rr_advance (l : list Z) (c : Z) :
  fold_left rr_advance l (Int64.wrap c) = Int64.wrap (c + positive_sum l).
Proof.
  revert c. induction l as [|b l IH]; intros c; simpl.
  - now rewrite Z.add_0_r.
  - unfold rr_advance at 2. destruct (0 <? b).
    + unfold Int64.add. rewrite Int64Facts.wrap_add_l, IH. f_equal. lia.
    + apply IH.
Qed.

Lemma fold_int64_add (l : list Z) (c : Z) :
  fold_left Int64.add l (Int64.wrap c) = Int64.wrap (c + total l).
Proof.
  revert c. induction l as [|b l IH]; intros c; simpl.
  - now rewrite Z.add_0_r.
  - unfold Int64.add at 2. rewrite Int64Facts.wrap_add_l, IH. f_equal. lia.
Qed.

Lemma positive_sum_perm (l l' : list Z) :
  Permutation l l' -> positive_sum l = positive_sum l'.
Proof.
  induction 1 as [|x l l' _ IH|x y l|l l' l'' _ IH1 _ IH2]; simpl.
  - reflexivity.
  - now rewrite IH.
  - destruct (0 <? x), (0 <? y); lia.
  - congruence.
Qed.

Lemma positive_sum_total (l : list Z) :
  Forall (fun b => 0 <= b) l -> positive_sum l = total l.
Proof.
  induction 1 as [|b l Hb _ IH]; simpl; [reflexivity|].
  rewrite IH. destruct (Z.ltb_spec 0 b); lia.
Qed.

Lemma rr_clock_closed (ps : list Process) :
  rr_clock ps = Int64.wrap (positive_sum (BurstDuration <$> ps)).
Proof. unfold rr_clock. apply (fold_rr_advance _ 0). Qed.

Lemma int64_sum_closed (l : list Z) : Int64.sum l = Int64.wrap (total l).
Proof. unfold Int64.sum. apply (fold_int64_add _ 0). Qed.

(** C10, as the code has it.  The final clock of RR is the sum, wrapped to
    [int64], of the burst durations that are positive: a process whose burst
    is zero or negative is never run.  When no burst is negative this is the
    [int64] sum of all the burst durations.  The throughput RR reports is
    the number of processes divided by this clock, as [float64]s; it depends
    on the bursts of the batch only, not on the arrival times nor on the
    order the sort leaves. *)
Theorem RR_clock_is_positive_burst_sum (sortSlice : sorter) (fuel : nat)
    (title : string) (processes : list Process) :
  sorts sortSlice ->
  let bursts := BurstDuration <$> processes in
  let clock := Int64.wrap (positive_sum bursts) in
  exists st passes calls,
    RR.compute (S (S fuel)) (sortSlice processes) = Some (st, passes) /\
    RRSchedule (S (S fuel)) sortSlice title processes = Some calls /\
    RR.currentTime st = clock /\
    (Forall (fun b => 0 <= b) bursts -> clock = Int64.sum bursts) /\
    throughputOf calls
    = [PrimFloat.div (float64 (Z.of_nat (length processes))) (float64 clock)].
Proof.
  intros Hsort bursts clock. destruct (Hsort processes) as [Hperm _].
  eexists _, _, _. split; [apply RR_compute|].
  split; [apply RRSchedule_closed|].
  assert (rr_clock (sortSlice processes) = clock) as Hclock.
  { rewrite rr_clock_closed. unfold clock, bursts. f_equal.
    apply positive_sum_perm. symmetry. now apply fmap_Permutation. }
  split; [exact Hclock|]. split.
  - intros Hall. unfold clock.
    now rewrite int64_sum_closed, positive_sum_total.
  - unfold throughputOf, aggregatesOf, RR.finish, rr_final.
    cbn [flat_map app fmap list_fmap snd RR.currentTime].
    now rewrite Hclock, <- (Permutation_length Hperm).
Qed.

Lemma RR_clock_is_positive_burst_sum_witness :
  exists calls,
    RRSchedule 2 insertionSort "RR" [P1; P2; P3] = Some calls /\
    throughputOf calls = [0.1875%float].
Proof.
  destruct (RR_clock_is_positive_burst_sum insertionSort 0 "RR" [P1; P2; P3]
              insertionSort_sorts) as (st & passes & calls & _ & Hc & _ & _ & Ht).
  exists calls. split; [exact Hc|]. rewrite Ht. vm_compute. reflexivity.
Defined.

(** C10 as stated fails for a batch with a negative burst: for
    [Negative; P1] (bursts -2 and 5) the final clock is 5 and RR reports
    the throughput 2/5, while the bursts sum to 3. *)
Lemma RR_clock_skips_negative_burst :
  exists st passes calls,
    RR.compute 2 (insertionSort [Negative; P1]) = Some (st, passes) /\
    RRSchedule 2 insertionSort "RR" [Negative; P1] = Some calls /\
    RR.currentTime st = 5 /\
    Int64.sum (BurstDuration <$> [Negative; P1]) = 3 /\
    throughputOf calls = [PrimFloat.div (float64 2) (float64 5)] /\
    PrimFloat.eqb (PrimFloat.div (float64 2) (float64 5))
      (PrimFloat.div (float64 2) (float64 3)) = false.
Proof.
  eexists _, _, _. split; [vm_compute; reflexivity|].
  split; [vm_compute; reflexivity|].
  repeat split; vm_compute; reflexivity.
Qed.

(** ** The priority queue *)

Lemma PQ_index_Some (pq : PQ.PriorityQueue) (i : Z) (p : PQ.pointer) :
  PQ.index pq i = Some p <-> 0 <= i /\ pq !! Z.to_nat i = Some p.
Proof.
  unfold PQ.index. destruct (Z.leb_spec 0 i) as [Hi|Hi]; split.
  - now split.
  - now intros [_ H].
  - discriminate.
  - intros [? _]. lia.
Qed.

Lemma PQ_index_is_Some (pq : PQ.PriorityQueue) (i : Z) :
  is_Some (PQ.index pq i) <-> 0 <= i < PQ.Len pq.
Proof.
  unfold PQ.index, PQ.Len. destruct (Z.leb_spec 0 i).
  - rewrite lookup_lt_is_Some. lia.
  - split; [intros [? H']; discriminate H'|lia].
Qed.

Lemma PQ_index_last (pq : PQ.PriorityQueue) (p : PQ.pointer) :
  PQ.index (pq ++ [p]) (PQ.Len (pq ++ [p]) - 1) = Some p /\
  take (Z.to_nat (PQ.Len (pq ++ [p]) - 1)) (pq ++ [p]) = pq.
Proof.
  unfold PQ.Len. rewrite length_app. cbn [length].
  replace (Z.of_nat (length pq + 1) - 1) with (Z.of_nat (length pq)) by lia.
  unfold PQ.index. rewrite Nat2Z.id.
  destruct (Z.leb_spec 0 (Z.of_nat (length pq))); [|lia].
  split; [now apply list_lookup_middle|apply take_app_length].
Qed.

(** X1.  A pointer pushed on a queue is the one the next [Pop] returns, and
    that [Pop] leaves the queue as it was before the [Push]; the [Push]
    makes the queue one longer. *)
Theorem PQ_Push_then_Pop (pq pq' : PQ.PriorityQueue) (x : PQ.any) :
  PQ.Push pq x = Some pq' ->
  PQ.Pop pq' = Some (x, pq) /\ PQ.Len pq' = PQ.Len pq + 1.
Proof.
  destruct x as [p|]; [|discriminate]. intros [= <-].
  destruct (PQ_index_last pq p) as [Hi Ht]. unfold PQ.Pop.
  rewrite Hi. cbn [mbind option_bind]. rewrite Ht. split; [reflexivity|].
  unfold PQ.Len. rewrite length_app. cbn [length]. lia.
Qed.

Lemma PQ_Push_then_Pop_witness :
  PQ.Pop [PQ.ref 1%nat; PQ.nil; PQ.ref 7%nat]
  = Some (PQ.ProcessPtr (PQ.ref 7%nat), [PQ.ref 1%nat; PQ.nil]).
Proof.
  exact (proj1 (PQ_Push_then_Pop [PQ.ref 1%nat; PQ.nil] _
                  (PQ.ProcessPtr (PQ.ref 7%nat)) eq_refl)).
Defined.

(** X2.  [Pop] panics on the empty queue and on no other.  On any other it
    returns the last pointer, as a [*Process], and leaves the pointers
    before it, one fewer; pushing the returned value back restores the
    queue.  [Push] panics exactly on a value that is not a [*Process]. *)
Theorem PQ_Pop_last (pq : PQ.PriorityQueue) :
  (PQ.Pop pq = None <-> pq = []) /\
  (forall x, PQ.Push pq x = None <-> x = PQ.Other) /\
  forall x pq', PQ.Pop pq = Some (x, pq') ->
    PQ.Len pq' = PQ.Len pq - 1 /\ PQ.Push pq' x = Some pq /\
    exists p, x = PQ.ProcessPtr p /\ pq = pq' ++ [p].
Proof.
  split; [|split].
  - destruct pq as [|q pq _] using rev_ind; [done|].
    destruct (PQ_index_last pq q) as [Hi _]. unfold PQ.Pop. rewrite Hi.
    split; [discriminate|]. intros H. now apply app_nil in H as [_ ?].
  - intros [p|]; split; (done || discriminate).
  - intros x pq'. destruct pq as [|q pq _] using rev_ind; [discriminate|].
    destruct (PQ_index_last pq q) as [Hi Ht]. unfold PQ.Pop. rewrite Hi.
    cbn [mbind option_bind]. rewrite Ht. intros [= <- <-].
    split; [|split; [reflexivity|now exists q]].
    unfold PQ.Len. rewrite length_app. cbn [length]. lia.
Qed.

Lemma swap_lookup {A} (l : list A) (i j k : nat) (x y : A) :
  l !! i = Some x -> l !! j = Some y ->
  <[j := x]> (<[i := y]> l) !! k
  = if decide (k = j) then Some x else if decide (k = i) then Some y else l !! k.
Proof.
  intros Hi Hj. pose proof (lookup_lt_Some _ _ _ Hi). pose proof (lookup_lt_Some _ _ _ Hj).
  rewrite !list_lookup_insert, !length_insert.
  repeat case_decide; try reflexivity; exfalso; intuition lia.
Qed.

Lemma swap_head_perm {A} (l : list A) (j : nat) (a y : A) :
  l !! j = Some y -> Permutation (y :: <[j := a]> l) (a :: l).
Proof.
  revert j. induction l as [|b l IH]; intros [|j] Hj; try discriminate Hj.
  - injection Hj as ->. apply perm_swap.
  - simpl in Hj |- *. rewrite perm_swap, (IH j Hj). apply perm_swap.
Qed.

Lemma swap_perm {A} (l : list A) (i j : nat) (x y : A) :
  l !! i = Some x -> l !! j = Some y ->
  Permutation l (<[j := x]> (<[i := y]> l)).
Proof.
  revert i j. induction l as [|a l IH]; intros [|i] [|j] Hi Hj;
    try discriminate Hi; simpl in *.
  - injection Hi as ->. injection Hj as ->. reflexivity.
  - injection Hi as ->. symmetry. now apply swap_head_perm.
  - injection Hj as ->. symmetry. now apply swap_head_perm.
  - constructor. now apply IH.
Qed.

Lemma swap_twice {A} (l : list A) (i j : nat) (x y : A) :
  l !! i = Some x -> l !! j = Some y ->
  <[j := y]> (<[i := x]> (<[j := x]> (<[i := y]> l))) = l.
Proof.
  intros Hi Hj. destruct (decide (i = j)) as [->|Hne].
  - assert (x = y) as -> by congruence.
    now rewrite !list_insert_insert_eq, list_insert_id.
  - apply list_eq. intros k.
    rewrite (swap_lookup _ i j k y x).
    + rewrite (swap_lookup l i j k x y Hi Hj).
      repeat case_decide; subst; congruence || reflexivity.
    + rewrite (swap_lookup l i j i x y Hi Hj).
      rewrite decide_False, decide_True by done. reflexivity.
    + rewrite (swap_lookup l i j j x y Hi Hj).
      now rewrite decide_True.
Qed.

Lemma PQ_Swap_inv (pq pq' : PQ.PriorityQueue) (i j : Z) :
  PQ.Swap pq i j = Some pq' ->
  exists pi pj,
    0 <= i /\ 0 <= j /\
    pq !! Z.to_nat i = Some pi /\ pq !! Z.to_nat j = Some pj /\
    pq' = <[Z.to_nat j := pi]> (<[Z.to_nat i := pj]> pq).
Proof.
  unfold PQ.Swap. intros H.
  destruct (PQ.index pq j) as [pj|] eqn:Hj; [|discriminate].
  destruct (PQ.index pq i) as [pi|] eqn:Hi; [|discriminate].
  apply PQ_index_Some in Hi as [? Hi], Hj as [? Hj].
  injection H as <-. now exists pi, pj.
Qed.

Lemma PQ_Swap_index (pq pq' : PQ.PriorityQueue) (i j k : Z) :
  PQ.Swap pq i j = Some pq' ->
  PQ.index pq' k
  = if decide (k = j) then PQ.index pq i
    else if decide (k = i) then PQ.index pq j else PQ.index pq k.
Proof.
  intros H. apply PQ_Swap_inv in H as (pi & pj & Hi0 & Hj0 & Hi & Hj & ->).
  unfold PQ.index. destruct (Z.leb_spec 0 k) as [Hk|Hk].
  - rewrite (swap_lookup pq _ _ _ pi pj Hi Hj).
    destruct (Z.leb_spec 0 i); [|lia]. destruct (Z.leb_spec 0 j); [|lia].
    repeat case_decide; subst; try congruence; try reflexivity;
      exfalso; lia.
  - repeat case_decide; try reflexivity; exfalso; lia.
Qed.

(** X3.  [Swap] panics unless both indices are within the queue.  Within it,
    [Swap] exchanges the pointers at the two indices and touches no other:
    the queue keeps its length and its pointers, as a permutation, and a
    second [Swap] of the same indices restores it. *)
Theorem PQ_Swap_exchanges (pq : PQ.PriorityQueue) (i j : Z) :
  (is_Some (PQ.Swap pq i j) <->
   0 <= i < PQ.Len pq /\ 0 <= j < PQ.Len pq) /\
  forall pq', PQ.Swap pq i j = Some pq' ->
    Permutation pq pq' /\ PQ.Len pq' = PQ.Len pq /\
    PQ.index pq' i = PQ.index pq j /\ PQ.index pq' j = PQ.index pq i /\
    (forall k, k <> i -> k <> j -> PQ.index pq' k = PQ.index pq k) /\
    PQ.Swap pq' i j = Some pq.
Proof.
  split.
  - rewrite <- !PQ_index_is_Some. unfold PQ.Swap.
    destruct (PQ.index pq j), (PQ.index pq i); cbn [mbind option_bind];
      split; try (intros [? H]; discriminate H);
      try (intros [[? H] [? H']]; discriminate H || discriminate H');
      eauto.
  - intros pq' H. pose proof (PQ_Swap_index pq pq' i j) as Hk.
    pose proof (Hk i H) as Hii. pose proof (Hk j H) as Hjj.
    apply PQ_Swap_inv in H as (pi & pj & Hi0 & Hj0 & Hi & Hj & ->).
    split; [now apply swap_perm|].
    split; [unfold PQ.Len; now rewrite !length_insert|].
    rewrite decide_True in Hjj by done.
    assert (PQ.index (<[Z.to_nat j:=pi]> (<[Z.to_nat i:=pj]> pq)) i
            = PQ.index pq j) as Hii'.
    { rewrite Hii. destruct (decide (i = j)) as [->|]; [done|].
      now rewrite decide_True. }
    split; [exact Hii'|]. split; [exact Hjj|]. split.
    + intros k Hki Hkj. unfold PQ.index.
      destruct (Z.leb_spec 0 k); [|reflexivity].
      rewrite (swap_lookup pq _ _ _ pi pj Hi Hj).
      rewrite !decide_False by lia. reflexivity.
    + unfold PQ.Swap. rewrite Hjj, Hii'.
      rewrite (proj2 (PQ_index_Some pq i pi)), (proj2 (PQ_index_Some pq j pj))
        by done.
      cbn [mbind option_bind]. f_equal. now apply swap_twice.
Qed.

Lemma PQ_Less_alt (mem : PQ.memory) (pq : PQ.PriorityQueue) (i j : Z) :
  PQ.Less mem pq i j
  = a ← PQ.process_at mem pq i; b ← PQ.process_at mem pq j; Some (less a b).
Proof.
  unfold PQ.Less, PQ.process_at.
  destruct (PQ.index pq i) as [pi|]; [|reflexivity]. cbn [mbind option_bind].
  destruct (PQ.deref mem pi); [|reflexivity]. cbn [mbind option_bind].
  destruct (PQ.index pq j) as [pj|]; reflexivity.
Qed.

(** X4.  [Less] panics exactly when one of the two indices is out of range
    or holds a nil pointer.  Otherwise it compares the burst durations of
    the two processes pointed to, as the [less] of the schedulers' sort
    does, and it is a strict weak order on the indices: irreflexive,
    asymmetric, transitive, and with a transitive negation. *)
Theorem PQ_Less_strict_weak_order (mem : PQ.memory) (pq : PQ.PriorityQueue) :
  (forall i j,
     PQ.Less mem pq i j = None <->
     PQ.process_at mem pq i = None \/ PQ.process_at mem pq j = None) /\
  (forall i j a b,
     PQ.process_at mem pq i = Some a -> PQ.process_at mem pq j = Some b ->
     PQ.Less mem pq i j = Some (less a b)) /\
  (forall i, PQ.Less mem pq i i <> Some true) /\
  (forall i j,
     PQ.Less mem pq i j = Some true -> PQ.Less mem pq j i = Some false) /\
  (forall i j k,
     PQ.Less mem pq i j = Some true -> PQ.Less mem pq j k = Some true ->
     PQ.Less mem pq i k = Some true) /\
  (forall i j k,
     PQ.Less mem pq i j = Some false -> PQ.Less mem pq j k = Some false ->
     PQ.Less mem pq i k = Some false).
Proof.
  split; [|split; [|split; [|split; [|split]]]].
  - intros i j. rewrite PQ_Less_alt.
    destruct (PQ.process_at mem pq i), (PQ.process_at mem pq j); cbn;
      split; try discriminate; auto; intros [H|H]; discriminate H.
  - intros i j a b Ha Hb. now rewrite PQ_Less_alt, Ha, Hb.
  - intros i. rewrite PQ_Less_alt.
    destruct (PQ.process_at mem pq i); cbn; [|discriminate].
    unfold less. rewrite Z.ltb_irrefl. discriminate.
  - intros i j. rewrite !PQ_Less_alt.
    destruct (PQ.process_at mem pq i), (PQ.process_at mem pq j);
      cbn; try discriminate.
    unfold less. intros [= H]. f_equal. apply Z.ltb_lt in H. apply Z.ltb_ge. lia.
  - intros i j k. rewrite !PQ_Less_alt. intros H1 H2.
    destruct (PQ.process_at mem pq i), (PQ.process_at mem pq j),
      (PQ.process_at mem pq k); cbn in *; try discriminate.
    unfold less in *. injection H1 as H1. injection H2 as H2. f_equal.
    apply Z.ltb_lt in H1, H2. apply Z.ltb_lt. lia.
  - intros i j k. rewrite !PQ_Less_alt. intros H1 H2.
    destruct (PQ.process_at mem pq i), (PQ.process_at mem pq j),
      (PQ.process_at mem pq k); cbn in *; try discriminate.
    unfold less in *. injection H1 as H1. injection H2 as H2. f_equal.
    apply Z.ltb_ge in H1, H2. apply Z.ltb_ge. lia.
Qed.

(** X5.  After a [Swap] of [i] and [j], [Less] of [i] and [j] is what
    [Less] of [j] and [i] was before it, panics included. *)
Theorem PQ_Less_after_Swap (mem : PQ.memory) (pq pq' : PQ.PriorityQueue)
    (i j : Z) :
  PQ.Swap pq i j = Some pq' ->
  PQ.Less mem pq' i j = PQ.Less mem pq j i.
Proof.
  intros H. pose proof (PQ_Swap_index pq pq' i j) as Hk.
  pose proof (Hk i H) as Hi. pose proof (Hk j H) as Hj.
  rewrite decide_True in Hj by done.
  assert (PQ.index pq' i = PQ.index pq j) as Hi'.
  { rewrite Hi. destruct (decide (i = j)) as [->|]; [done|].
    now rewrite decide_True. }
  unfold PQ.Less. now rewrite Hi', Hj.
Qed.

Lemma PQ_Less_after_Swap_witness :
  PQ.Less (fun a => mkProcess "p" 0 (Z.of_nat a) 0 0 0)
    [PQ.ref 3%nat; PQ.ref 5%nat] 0 1 = Some true.
Proof.
  exact (PQ_Less_after_Swap (fun a => mkProcess "p" 0 (Z.of_nat a) 0 0 0)
           [PQ.ref 5%nat; PQ.ref 3%nat] [PQ.ref 3%nat; PQ.ref 5%nat] 0 1
           eq_refl).
Defined.

(** ** More on the three loops *)

Section Emitting.

Variable body : loop_state -> Process -> loop_state.

Hypothesis body_emits : forall st p,
  exists clock w, body st p = emit st p clock w.

Lemma numbers_snoc k rows r z :
  num k r = Some z -> numbers k (rows ++ [r]) = numbers k rows ++ [z].
Proof. intros H. unfold numbers. rewrite omap_app. simpl. now rewrite H. Qed.

Lemma fsum_snoc l z : fsum (l ++ [z]) = PrimFloat.add (fsum l) (float64 z).
Proof. unfold fsum. now rewrite fold_left_app. Qed.

(** What the loop hands over is read off the rows it built: each total is
    the running float sum of its column, the last completion is the
    completion of the last row, and the rows and slices describe the
    processes in the order served. *)
Lemma loop_totals (ps : list Process) :
  let st := fold_left body ps loop_init in
  totalWait st = fsum (numbers colWaiting (schedule st)) /\
  totalTurnaround st = fsum (numbers colTurnaround (schedule st)) /\
  lastCompletion st
  = float64 (default 0 (last (numbers colCompletion (schedule st)))) /\
  describes <$> schedule st = Some <$> (described <$> ps) /\
  PID <$> gantt st = ProcessID <$> ps /\
  length (schedule st) = length ps.
Proof.
  induction ps as [|p ps IH] using rev_ind; [now repeat split|].
  cbv zeta in *. rewrite fold_left_app. cbn [fold_left].
  destruct IH as (IH1 & IH2 & IH3 & IH4 & IH5 & IH6).
  destruct (body_emits (fold_left body ps loop_init) p) as (c & w & ->).
  cbn [emit totalWait totalTurnaround lastCompletion schedule gantt].
  change [Str (ProcessID p); Num (Priority p); Num (BurstDuration p);
          Num (ArrivalTime p); Num w; Num (Int64.add (BurstDuration p) w);
          Num (Int64.add (Int64.add (BurstDuration p) (ArrivalTime p)) w)]
    with (line p w).
  rewrite (numbers_snoc colWaiting _ (line p w) w eq_refl).
  rewrite (numbers_snoc colTurnaround _ (line p w) _ eq_refl).
  rewrite (numbers_snoc colCompletion _ (line p w) _ eq_refl).
  rewrite !fsum_snoc, last_snoc.
  rewrite !fmap_app, IH1, IH2, IH4, IH5, length_app, IH6. cbn [default].
  rewrite length_app. repeat split; reflexivity.
Qed.

End Emitting.

Lemma FCFS_body_emits st p : exists clock w, FCFS_body st p = emit st p clock w.
Proof. now eexists _, _. Qed.

Lemma SJF_body_emits st p : exists clock w, SJF_body st p = emit st p clock w.
Proof. now eexists _, _. Qed.

Lemma SJFPriority_body_emits st p :
  exists clock w, SJFPriority_body st p = emit st p clock w.
Proof. now eexists _, _. Qed.

Lemma ascending_bursts (l : list Process) :
  ascending l -> Sorted Z.le (BurstDuration <$> l).
Proof.
  unfold ascending. induction 1 as [|p l _ IH Hd]; simpl; constructor; [exact IH|].
  destruct Hd as [|q l Hq]; simpl; constructor.
  unfold less in Hq. now apply Z.ltb_ge in Hq.
Qed.

Lemma rr_rows_describe (l : list Process) (T : list Z) :
  length T = length l ->
  describes <$> zip_with rr_line l T = Some <$> (described <$> l) /\
  numbers colTurnaround (zip_with rr_line l T) = T /\
  numbers colWaiting (zip_with rr_line l T)
  = zip_with (fun p t => Int64.sub t (BurstDuration p)) l T.
Proof.
  revert T. induction l as [|p l IH]; intros [|t T] HT; try discriminate HT.
  - now repeat split.
  - injection HT as HT. destruct (IH T HT) as (IH1 & IH2 & IH3).
    unfold numbers in *. cbn. rewrite IH1, IH2, IH3. now repeat split.
Qed.

(** X6.  No policy drops, repeats or alters a process: FCFS renders one row
    and one slice per process, in the caller's order, each row showing the
    identifier, priority, burst and arrival of its process; SJF,
    SJF-priority and RR render the rows of one and the same reordering of
    the batch, which is ascending in burst duration. *)
Theorem rows_describe_the_batch (sortSlice : sorter) (fuel : nat)
    (title : string) (processes : list Process) :
  sorts sortSlice ->
  describes <$> scheduleOf (FCFSSchedule title processes)
  = Some <$> (described <$> processes) /\
  PID <$> ganttOf (FCFSSchedule title processes) = ProcessID <$> processes /\
  exists sorted,
    Permutation processes sorted /\
    Sorted Z.le (BurstDuration <$> sorted) /\
    describes <$> scheduleOf (SJFSchedule sortSlice title processes)
    = Some <$> (described <$> sorted) /\
    PID <$> ganttOf (SJFSchedule sortSlice title processes)
    = ProcessID <$> sorted /\
    describes <$> scheduleOf (SJFPrioritySchedule sortSlice title processes)
    = Some <$> (described <$> sorted) /\
    PID <$> ganttOf (SJFPrioritySchedule sortSlice title processes)
    = ProcessID <$> sorted /\
    exists calls,
      RRSchedule (S (S fuel)) sortSlice title processes = Some calls /\
      describes <$> scheduleOf calls = Some <$> (described <$> sorted).
Proof.
  intros Hsort. destruct (Hsort processes) as [Hperm Hasc].
  unfold FCFSSchedule, SJFSchedule, SJFPrioritySchedule.
  rewrite !scheduleOf_finish, !ganttOf_finish.
  destruct (loop_totals FCFS_body FCFS_body_emits processes)
    as (_ & _ & _ & H1 & H2 & _).
  split; [exact H1|]. split; [exact H2|].
  exists (sortSlice processes).
  destruct (loop_totals SJF_body SJF_body_emits (sortSlice processes))
    as (_ & _ & _ & H3 & H4 & _).
  destruct (loop_totals SJFPriority_body SJFPriority_body_emits
              (sortSlice processes)) as (_ & _ & _ & H5 & H6 & _).
  split; [exact Hperm|]. split; [now apply ascending_bursts|].
  split; [exact H3|]. split; [exact H4|]. split; [exact H5|].
  split; [exact H6|].
  eexists. split; [apply RRSchedule_closed|].
  rewrite scheduleOf_RR_finish. cbn [rr_final RR.schedule]. unfold rr_rows.
  apply rr_rows_describe. apply length_imap.
Qed.

Lemma rows_describe_the_batch_witness :
  describes <$> scheduleOf (FCFSSchedule "FCFS" [P1; P2])
  = [Some ("P1"%string, 0, 5, 0); Some ("P2"%string, 0, 3, 1)].
Proof.
  exact (proj1 (rows_describe_the_batch insertionSort 0 "FCFS" [P1; P2]
                  insertionSort_sorts)).
Defined.

Lemma finish_aggregates (body : loop_state -> Process -> loop_state)
    (title : string) (ps : list Process) :
  (forall st p, exists clock w, body st p = emit st p clock w) ->
  let calls := finish title (length ps) (fold_left body ps loop_init) in
  let count := float64 (Z.of_nat (length (scheduleOf calls))) in
  aggregatesOf calls
  = [ (PrimFloat.div (fsum (numbers colWaiting (scheduleOf calls))) count,
       PrimFloat.div (fsum (numbers colTurnaround (scheduleOf calls))) count,
       PrimFloat.div count
         (float64 (default 0 (last (numbers colCompletion (scheduleOf calls)))))) ].
Proof.
  intros Hbody calls count. subst calls count. rewrite scheduleOf_finish.
  destruct (loop_totals body Hbody ps) as (H1 & H2 & H3 & _ & _ & H6).
  cbv zeta in *. unfold aggregatesOf, finish. cbn [flat_map app].
  now rewrite H1, H2, H3, H6.
Qed.

(** X7.  The throughput FCFS, SJF and SJF-priority report is the number of
    rows divided by the completion time of the last row of the table (by 0
    when the table is empty), whatever the completion times of the rows
    before it. *)
Theorem throughput_from_last_row (sortSlice : sorter) (title : string)
    (processes : list Process) :
  let reads calls :=
    throughputOf calls
    = [ PrimFloat.div (float64 (Z.of_nat (length (scheduleOf calls))))
          (float64 (default 0 (last (numbers colCompletion (scheduleOf calls))))) ] in
  reads (FCFSSchedule title processes) /\
  reads (SJFSchedule sortSlice title processes) /\
  reads (SJFPrioritySchedule sortSlice title processes).
Proof.
  cbv zeta. unfold throughputOf, FCFSSchedule, SJFSchedule, SJFPrioritySchedule,
    FCFS_loop, SJF_loop, SJFPriority_loop.
  rewrite (finish_aggregates FCFS_body title processes FCFS_body_emits).
  rewrite (finish_aggregates SJF_body title _ SJF_body_emits).
  rewrite (finish_aggregates SJFPriority_body title _ SJFPriority_body_emits).
  now repeat split.
Qed.

(** X8.  The average waiting and turnaround times FCFS, SJF and
    SJF-priority report are the [float64] running sums of the waiting and
    turnaround columns of the table, in row order, divided by the number of
    rows. *)
Theorem averages_from_columns (sortSlice : sorter) (title : string)
    (processes : list Process) :
  let reads calls :=
    (fun a => fst a) <$> aggregatesOf calls
    = [ (PrimFloat.div (fsum (numbers colWaiting (scheduleOf calls)))
           (float64 (Z.of_nat (length (scheduleOf calls)))),
         PrimFloat.div (fsum (numbers colTurnaround (scheduleOf calls)))
           (float64 (Z.of_nat (length (scheduleOf calls))))) ] in
  reads (FCFSSchedule title processes) /\
  reads (SJFSchedule sortSlice title processes) /\
  reads (SJFPrioritySchedule sortSlice title processes).
Proof.
  cbv zeta. unfold FCFSSchedule, SJFSchedule, SJFPrioritySchedule,
    FCFS_loop, SJF_loop, SJFPriority_loop.
  rewrite (finish_aggregates FCFS_body title processes FCFS_body_emits).
  rewrite (finish_aggregates SJF_body title _ SJF_body_emits).
  rewrite (finish_aggregates SJFPriority_body title _ SJFPriority_body_emits).
  now repeat split.
Qed.

(** X9.  RR sums its waiting and turnaround columns in [int64] and converts
    the sums: the averages it reports are the [float64]s of the wrapped
    column sums divided by the number of rows, and its throughput is the
    number of rows divided by its final clock. *)
Theorem RR_aggregates_from_columns (sortSlice : sorter) (fuel : nat)
    (title : string) (processes : list Process) :
  exists calls,
    RRSchedule (S (S fuel)) sortSlice title processes = Some calls /\
    let count := float64 (Z.of_nat (length (scheduleOf calls))) in
    aggregatesOf calls
    = [ (PrimFloat.div
           (float64 (Int64.sum (numbers colWaiting (scheduleOf calls)))) count,
         PrimFloat.div
           (float64 (Int64.sum (numbers colTurnaround (scheduleOf calls)))) count,
         PrimFloat.div count (float64 (rr_clock (sortSlice processes)))) ].
Proof.
  eexists. split; [apply RRSchedule_closed|]. cbv zeta.
  rewrite scheduleOf_RR_finish. cbn [rr_final RR.schedule]. unfold rr_rows.
  destruct (rr_rows_describe (sortSlice processes)
              (rr_turnarounds (sortSlice processes)) (length_imap _ _))
    as (_ & -> & ->).
  rewrite length_zip_with_l_eq by (symmetry; apply length_imap).
  reflexivity.
Qed.

(** ** The Gantt chart *)

Lemma loop_previous_stop (body : loop_state -> Process -> loop_state)
    (ps : list Process) (i : nat) :
  (forall st p,
     schedule (body st p) = schedule st ++ [line p (waitingTime (body st p))]) ->
  (forall st p,
     gantt (body st p) =
     gantt st ++ [slice p (waitingTime (body st p)) (serviceTime (body st p))]) ->
  (i <= length ps)%nat ->
  previous_stop (gantt (fold_left body ps loop_init)) i
  = Some (serviceTime (fold_left body (take i ps) loop_init)).
Proof.
  intros Hs Hg Hi. destruct i as [|j]; [done|]. simpl.
  destruct (lookup_lt_is_Some_2 ps j ltac:(lia)) as [q Hq].
  destruct (loop_lookup body Hs Hg ps j q Hq) as [_ ->]. done.
Qed.

Lemma int64_sum_range (l : list Z) : Int64.in_range (Int64.sum l).
Proof. rewrite int64_sum_closed. apply Int64Facts.wrap_range. Qed.

(** X10.  In the chart of FCFS the slice of a process with a positive
    arrival time starts where the slice before it stopped (at 0 when it is
    the first) and stops one burst later, whether or not the process has
    arrived by then. *)
Theorem FCFS_slices_are_contiguous (title : string) (processes : list Process)
    (i : nat) (p : Process) :
  processes !! i = Some p -> 0 < ArrivalTime p ->
  exists g,
    ganttOf (FCFSSchedule title processes) !! i = Some g /\
    previous_stop (ganttOf (FCFSSchedule title processes)) i = Some (Start g) /\
    Stop g = Int64.add (Start g) (BurstDuration p).
Proof.
  intros Hi Ha. unfold FCFSSchedule, FCFS_loop. rewrite ganttOf_finish.
  destruct (loop_lookup FCFS_body FCFS_body_schedule FCFS_body_gantt
              processes i p Hi) as [_ Hg].
  pose proof (lookup_lt_Some _ _ _ Hi) as Hlt.
  rewrite (loop_previous_stop FCFS_body processes i FCFS_body_schedule
             FCFS_body_gantt) by lia.
  rewrite (take_S_r _ _ _ Hi), loop_snoc in Hg.
  eexists. split; [exact Hg|].
  fold (FCFS_loop (take i processes)). unfold FCFS_body.
  apply Z.ltb_lt in Ha. rewrite Ha. cbn [emit waitingTime serviceTime slice Start Stop].
  rewrite Int64Facts.sub_add
    by (rewrite FCFS_clock; apply int64_sum_range).
  split; reflexivity.
Qed.

Lemma FCFS_slices_are_contiguous_witness :
  exists g,
    ganttOf (FCFSSchedule "FCFS" [P1; P2; P3]) !! 2%nat = Some g /\
    Start g = 8.
Proof.
  destruct (FCFS_slices_are_contiguous "FCFS" [P1; P2; P3] 2 P3 eq_refl eq_refl)
    as (g & Hg & Hs & _).
  exists g. split; [exact Hg|]. now injection Hs.
Defined.

Lemma SJFPriority_clock_range (l : list Process) :
  Int64.in_range (serviceTime (SJFPriority_loop l)).
Proof.
  unfold SJFPriority_loop. destruct l as [|p l _] using rev_ind.
  - apply Int64Facts.in_range_0.
  - rewrite fold_left_app. apply Int64Facts.add_range.
Qed.

Lemma SJFPriority_body_ready (st : loop_state) (p : Process) :
  Int64.in_range (serviceTime st) -> Int64.in_range (ArrivalTime p) ->
  0 < ArrivalTime p ->
  waitingTime (SJFPriority_body st p)
  = Z.max (serviceTime st) (ArrivalTime p) - ArrivalTime p /\
  serviceTime (SJFPriority_body st p)
  = Int64.add (Z.max (serviceTime st) (ArrivalTime p)) (BurstDuration p).
Proof.
  intros Hc Hr Ha. unfold SJFPriority_body. cbn [emit waitingTime serviceTime].
  apply Z.ltb_lt in Ha. rewrite Ha. apply Z.ltb_lt in Ha. cbv zeta.
  assert ((if serviceTime st <? ArrivalTime p then ArrivalTime p
           else serviceTime st)
          = Z.max (serviceTime st) (ArrivalTime p)) as ->.
  { destruct (Z.ltb_spec (serviceTime st) (ArrivalTime p)); lia. }
  split; [|reflexivity]. rewrite clamp_max.
  unfold Int64.sub. rewrite Int64Facts.wrap_id; [lia|].
  unfold Int64.in_range, Int64.min_int, Int64.max_int in *. lia.
Qed.

(** X11.  In the chart of SJF-priority the slice of a process with a
    positive arrival time starts at the later of its arrival and the stop of
    the slice before it (0 for the first), never earlier; the process waits
    from its arrival to that start, and the slice stops one burst later. *)
Theorem SJFPriority_starts_when_ready (sortSlice : sorter) (title : string)
    (processes : list Process) (i : nat) (p : Process) :
  sortSlice processes !! i = Some p ->
  Int64.in_range (ArrivalTime p) -> 0 < ArrivalTime p ->
  let out := SJFPrioritySchedule sortSlice title processes in
  exists r g before,
    scheduleOf out !! i = Some r /\ ganttOf out !! i = Some g /\
    previous_stop (ganttOf out) i = Some before /\
    Start g = Z.max before (ArrivalTime p) /\
    num colWaiting r = Some (Start g - ArrivalTime p) /\
    Stop g = Int64.add (Start g) (BurstDuration p).
Proof.
  intros Hi Hr Ha out. subst out. unfold SJFPrioritySchedule, SJFPriority_loop.
  rewrite scheduleOf_finish, ganttOf_finish.
  set (sorted := sortSlice processes) in *.
  destruct (loop_lookup SJFPriority_body SJFPriority_body_schedule
              SJFPriority_body_gantt sorted i p Hi) as [Hrow Hg].
  pose proof (lookup_lt_Some _ _ _ Hi) as Hlt.
  rewrite (loop_previous_stop SJFPriority_body sorted i
             SJFPriority_body_schedule SJFPriority_body_gantt) by lia.
  rewrite (take_S_r _ _ _ Hi), loop_snoc in Hrow, Hg.
  pose proof (SJFPriority_clock_range (take i sorted)) as Hc.
  unfold SJFPriority_loop in Hc.
  set (clock := serviceTime (fold_left SJFPriority_body (take i sorted) loop_init))
    in *.
  destruct (SJFPriority_body_ready
              (fold_left SJFPriority_body (take i sorted) loop_init) p Hc Hr Ha)
    as [Hw Hs]. fold clock in Hw, Hs.
  rewrite Hw, Hs in Hg. rewrite Hw in Hrow.
  eexists _, _, _. split; [exact Hrow|]. split; [exact Hg|].
  split; [reflexivity|]. cbn [slice Start Stop].
  assert (Int64.add (Z.max clock (ArrivalTime p) - ArrivalTime p) (ArrivalTime p)
          = Z.max clock (ArrivalTime p)) as ->.
  { unfold Int64.add.
    replace (Z.max clock (ArrivalTime p) - ArrivalTime p + ArrivalTime p)
      with (Z.max clock (ArrivalTime p)) by lia.
    apply Int64Facts.wrap_id.
    unfold Int64.in_range, Int64.min_int, Int64.max_int in *. lia. }
  repeat split.
Qed.

Lemma SJFPriority_starts_when_ready_witness :
  exists g,
    ganttOf (SJFPrioritySchedule insertionSort "SJFP" [P1; P2; P3]) !! 0%nat
    = Some g /\ Start g = 1.
Proof.
  destruct (SJFPriority_starts_when_ready insertionSort "SJFP" [P1; P2; P3]
              0 P2 eq_refl)
    as (r & g & before & _ & Hg & Hb & Hs & _).
  - vm_compute. split; discriminate.
  - reflexivity.
  - exists g. split; [exact Hg|]. injection Hb as <-. exact Hs.
Defined.

(** ** How the policies relate *)

Lemma SJFPriority_loop_never_idle (l : list Process) :
  (forall i p, l !! i = Some p ->
     ArrivalTime p <= Int64.sum (BurstDuration <$> take i l)) ->
  SJFPriority_loop l = SJF_loop l.
Proof.
  unfold SJFPriority_loop, SJF_loop.
  induction l as [|p l IH] using rev_ind; intros H; [reflexivity|].
  rewrite !fold_left_app. cbn [fold_left]. rewrite IH.
  - rewrite SJFPriority_body_idles. f_equal. unfold idle_until_ready.
    fold (SJF_loop l). rewrite SJF_clock.
    pose proof (H (length l) p (list_lookup_middle _ _ _ _ eq_refl)) as Hp.
    rewrite take_app_length in Hp.
    destruct (Z.ltb_spec (Int64.sum (BurstDuration <$> l)) (ArrivalTime p));
      [lia|reflexivity].
  - intros i q Hq. pose proof (lookup_lt_Some _ _ _ Hq) as Hlt.
    specialize (H i q). rewrite lookup_app_l, take_app_le in H by lia.
    now apply H.
Qed.

(** X12.  When every process of the sorted batch has arrived by the time the
    processes sorted before it have run (its arrival time is at most the
    [int64] sum of their bursts), the CPU never idles and SJF-priority
    renders exactly what SJF renders. *)
Theorem SJFPriority_without_idling (sortSlice : sorter) (title : string)
    (processes : list Process) :
  (forall i p, sortSlice processes !! i = Some p ->
     ArrivalTime p
     <= Int64.sum (BurstDuration <$> take i (sortSlice processes))) ->
  SJFPrioritySchedule sortSlice title processes
  = SJFSchedule sortSlice title processes.
Proof.
  intros H. unfold SJFPrioritySchedule, SJFSchedule.
  now rewrite SJFPriority_loop_never_idle.
Qed.

Lemma SJFPriority_without_idling_witness :
  SJFPrioritySchedule insertionSort "t" [P3; P1]
  = SJFSchedule insertionSort "t" [P3; P1].
Proof.
  apply SJFPriority_without_idling.
  intros [|[|i]] p; cbn; intros [= <-]; vm_compute; discriminate.
Defined.

Lemma loop_zero_arrivals (body : loop_state -> Process -> loop_state)
    (ps : list Process) :
  (forall st p,
     schedule (body st p) = schedule st ++ [line p (waitingTime (body st p))]) ->
  (forall st p, ArrivalTime p <= 0 -> waitingTime (body st p) = waitingTime st) ->
  Forall (fun p => ArrivalTime p <= 0) ps ->
  Forall (fun r => num colWaiting r = Some 0)
    (schedule (fold_left body ps loop_init)) /\
  waitingTime (fold_left body ps loop_init) = 0.
Proof.
  intros Hs Hw. induction ps as [|p ps IH] using rev_ind; intros Hall.
  - split; [constructor|reflexivity].
  - apply Forall_app in Hall as [Hps Hp]. apply Forall_inv in Hp.
    destruct (IH Hps) as [IH1 IH2].
    rewrite fold_left_app. cbn [fold_left]. rewrite Hs, (Hw _ _ Hp), IH2.
    split; [|reflexivity]. apply Forall_app. split; [exact IH1|].
    now repeat constructor.
Qed.

Lemma keeps_waiting_FCFS st p :
  ArrivalTime p <= 0 -> waitingTime (FCFS_body st p) = waitingTime st.
Proof.
  intros H. unfold FCFS_body. apply Z.ltb_ge in H. now rewrite H.
Qed.

Lemma keeps_waiting_SJF st p :
  ArrivalTime p <= 0 -> waitingTime (SJF_body st p) = waitingTime st.
Proof.
  intros H. unfold SJF_body. apply Z.ltb_ge in H. now rewrite H.
Qed.

Lemma keeps_waiting_SJFPriority st p :
  ArrivalTime p <= 0 -> waitingTime (SJFPriority_body st p) = waitingTime st.
Proof.
  intros H. unfold SJFPriority_body. apply Z.ltb_ge in H. now rewrite H.
Qed.

(** X13.  When no process of the batch has a positive arrival time, FCFS,
    SJF and SJF-priority report the waiting time 0 for every process,
    however long the processes served before it ran. *)
Theorem nobody_waits_without_arrivals (sortSlice : sorter) (title : string)
    (processes : list Process) :
  sorts sortSlice ->
  Forall (fun p => ArrivalTime p <= 0) processes ->
  Forall (fun r => num colWaiting r = Some 0)
    (scheduleOf (FCFSSchedule title processes)) /\
  Forall (fun r => num colWaiting r = Some 0)
    (scheduleOf (SJFSchedule sortSlice title processes)) /\
  Forall (fun r => num colWaiting r = Some 0)
    (scheduleOf (SJFPrioritySchedule sortSlice title processes)).
Proof.
  intros Hsort Hall. destruct (Hsort processes) as [Hperm _].
  assert (Forall (fun p => ArrivalTime p <= 0) (sortSlice processes)) as Hall'.
  { now rewrite <- Hperm. }
  unfold FCFSSchedule, SJFSchedule, SJFPrioritySchedule.
  rewrite !scheduleOf_finish.
  split; [|split].
  - now apply (loop_zero_arrivals FCFS_body processes FCFS_body_schedule
                 keeps_waiting_FCFS).
  - now apply (loop_zero_arrivals SJF_body _ SJF_body_schedule
                 keeps_waiting_SJF).
  - now apply (loop_zero_arrivals SJFPriority_body _ SJFPriority_body_schedule
                 keeps_waiting_SJFPriority).
Qed.

Lemma nobody_waits_without_arrivals_witness :
  Forall (fun r => num colWaiting r = Some 0)
    (scheduleOf (FCFSSchedule "FCFS" [P1; Negative])).
Proof.
  refine (proj1 (nobody_waits_without_arrivals insertionSort "FCFS"
                   [P1; Negative] insertionSort_sorts _)).
  repeat constructor; vm_compute; discriminate.
Defined.

Lemma rr_clock_all_positive (l : list Process) :
  Forall (fun p => 0 < BurstDuration p) l ->
  rr_clock l = Int64.sum (BurstDuration <$> l).
Proof.
  intros Hall. unfold rr_clock, Int64.sum.
  enough (forall c, fold_left rr_advance (BurstDuration <$> l) c
                    = fold_left Int64.add (BurstDuration <$> l) c) as H
    by apply H.
  induction Hall as [|p l Hp _ IH]; intros c; [reflexivity|].
  cbn [fmap list_fmap fold_left].
  unfold rr_advance at 2. apply Z.ltb_lt in Hp. rewrite Hp. apply IH.
Qed.

(** X14.  When every burst is positive, RR runs the processes back to back
    in the order of SJF's chart: the turnaround time RR reports for a
    process is the stop of that process's slice in SJF's chart less its
    arrival time. *)
Theorem RR_turnaround_from_SJF_chart (sortSlice : sorter) (fuel : nat)
    (title : string) (processes : list Process) :
  sorts sortSlice ->
  Forall (fun p => 0 < BurstDuration p) processes ->
  exists calls,
    RRSchedule (S (S fuel)) sortSlice title processes = Some calls /\
    length (scheduleOf calls)
    = length (ganttOf (SJFSchedule sortSlice title processes)) /\
    forall i r g,
      scheduleOf calls !! i = Some r ->
      ganttOf (SJFSchedule sortSlice title processes) !! i = Some g ->
      str colPID r = Some (PID g) /\
      exists a,
        num colArrival r = Some a /\
        num colTurnaround r = Some (Int64.sub (Stop g) a).
Proof.
  intros Hsort Hall. destruct (Hsort processes) as [Hperm _].
  assert (Forall (fun p => 0 < BurstDuration p) (sortSlice processes)) as Hall'.
  { now rewrite <- Hperm. }
  eexists. split; [apply RRSchedule_closed|].
  unfold SJFSchedule, SJF_loop. rewrite scheduleOf_RR_finish, ganttOf_finish.
  cbn [rr_final RR.schedule]. set (sorted := sortSlice processes) in *.
  split.
  { unfold rr_rows, rr_turnarounds.
    rewrite length_zip_with_l_eq by (symmetry; apply length_imap).
    symmetry.
    apply (loop_lengths SJF_body SJF_body_schedule SJF_body_gantt). }
  intros i r g Hr Hg.
  apply rr_rows_lookup in Hr as (p & Hp & ->).
  destruct (loop_lookup SJF_body SJF_body_schedule SJF_body_gantt sorted i p Hp)
    as [_ Hg'].
  rewrite Hg' in Hg. injection Hg as <-.
  split; [reflexivity|]. exists (ArrivalTime p). split; [reflexivity|].
  cbn [slice Stop]. fold (SJF_loop (take (S i) sorted)).
  rewrite SJF_clock. unfold rr_line, num. cbn. f_equal.
  unfold rr_turnaround.
  pose proof (proj1 (Forall_lookup _ _) Hall' i p Hp) as Hb. cbv beta in Hb.
  apply Z.ltb_lt in Hb. rewrite Hb.
  rewrite rr_clock_all_positive by now apply Forall_take.
  reflexivity.
Qed.

Lemma RR_turnaround_from_SJF_chart_witness :
  exists calls,
    RRSchedule 2 insertionSort "RR" [P1; P2; P3] = Some calls /\
    length (scheduleOf calls) = 3%nat.
Proof.
  destruct (RR_turnaround_from_SJF_chart insertionSort 0 "RR" [P1; P2; P3]
              insertionSort_sorts) as (calls & Hc & Hl & _).
  - repeat constructor.
  - exists calls. split; [exact Hc | exact Hl].
Defined.

(** ** The fields no policy reads *)

Lemma fold_left_fmap {A B C} (f : B -> C) (g : A -> C -> A) (l : list B) (a : A) :
  fold_left g (f <$> l) a = fold_left (fun a b => g a (f b)) l a.
Proof. revert a. induction l as [|b l IH]; intros a; simpl; [done|apply IH]. Qed.

Lemma forM_ext {S} (f g : S -> nat -> option S) (indices : list nat) (s : S) :
  (forall s i, f s i = g s i) -> forM f indices s = forM g indices s.
Proof.
  intros H. revert s. induction indices as [|i indices IH]; intros s; simpl; [done|].
  rewrite H. destruct (g s i); simpl; [apply IH|done].
Qed.

(** X15.  No policy reads the [RemainingTime] and [Index] fields of a
    process: setting them to zero in every process of a batch changes
    neither what FCFS renders, nor what the loops of SJF and SJF-priority
    compute on a sorted slice, nor what RR computes on it, whatever the
    bound on its outer loop. *)
Theorem bookkeeping_fields_are_unread (fuel : nat) (title : string)
    (processes : list Process) :
  FCFSSchedule title (forget_bookkeeping <$> processes)
  = FCFSSchedule title processes /\
  SJF_loop (forget_bookkeeping <$> processes) = SJF_loop processes /\
  SJFPriority_loop (forget_bookkeeping <$> processes)
  = SJFPriority_loop processes /\
  RR.compute fuel (forget_bookkeeping <$> processes) = RR.compute fuel processes.
Proof.
  unfold FCFSSchedule, FCFS_loop, SJF_loop, SJFPriority_loop, RR.compute.
  rewrite length_fmap, !fold_left_fmap. repeat split.
  unfold for_range.
  rewrite (forM_ext (RR.fill_body (forget_bookkeeping <$> processes))
             (RR.fill_body processes)).
  2:{ intros st i. unfold RR.fill_body. rewrite list_lookup_fmap.
      now destruct (processes !! i). }
  destruct (forM (RR.fill_body processes) (seq 0 (length processes))
              (RR.init (length processes))) as [st|]; [|reflexivity].
  cbn [mbind option_bind].
  destruct (RR.run fuel (length processes) st) as [[st' passes]|];
    [|reflexivity].
  cbn [mbind option_bind].
  rewrite (forM_ext (RR.metrics_body (forget_bookkeeping <$> processes))
             (RR.metrics_body processes)); [reflexivity|].
  intros s i. unfold RR.metrics_body. rewrite list_lookup_fmap.
  destruct (RR.turnaroundTime s !! i); [|reflexivity].
  now destruct (processes !! i).
Qed.

(** ** RR on the intended inputs *)

Lemma total_nonneg (l : list Z) : Forall (fun b => 0 <= b) l -> 0 <= total l.
Proof. induction 1; simpl; lia. Qed.

Lemma total_take_le (l : list Z) (i : nat) :
  Forall (fun b => 0 <= b) l -> 0 <= total (take i l) <= total l.
Proof.
  intros H. revert i. induction H as [|b l Hb Hl IH]; intros [|i]; simpl;
    try lia.
  - pose proof (total_nonneg l Hl). lia.
  - specialize (IH i). lia.
Qed.

Lemma total_snoc (l : list Z) (b : Z) : total (l ++ [b]) = total l + b.
Proof. induction l as [|x l IH]; simpl; lia. Qed.

(** X16.  On a batch of the intended domain (every burst positive, every
    arrival time at least 0, the bursts summing to an [int64]), RR reports
    for each process the waiting time (sum of the bursts sorted before it)
    less its arrival time, and the turnaround time one burst more: the
    waiting time is negative exactly when the process arrives after the
    processes sorted before it have run. *)
Theorem RR_waiting_in_domain (sortSlice : sorter) (fuel : nat) (title : string)
    (processes : list Process) :
  sorts sortSlice ->
  Forall (fun p => 0 < BurstDuration p /\ 0 <= ArrivalTime p <= Int64.max_int)
    processes ->
  total (BurstDuration <$> processes) <= Int64.max_int ->
  exists calls,
    RRSchedule (S (S fuel)) sortSlice title processes = Some calls /\
    forall i r, scheduleOf calls !! i = Some r ->
      exists p,
        sortSlice processes !! i = Some p /\
        let before := total (BurstDuration <$> take i (sortSlice processes)) in
        num colWaiting r = Some (before - ArrivalTime p) /\
        num colTurnaround r = Some (before + BurstDuration p - ArrivalTime p) /\
        (waiting_nonneg r <-> ArrivalTime p <= before).
Proof.
  intros Hsort Hall Htotal. destruct (Hsort processes) as [Hperm _].
  eexists. split; [apply RRSchedule_closed|].
  rewrite scheduleOf_RR_finish. cbn [rr_final RR.schedule].
  remember (sortSlice processes) as sorted eqn:Esorted. clear Esorted.
  assert (Forall (fun p => 0 < BurstDuration p /\
                           0 <= ArrivalTime p <= Int64.max_int) sorted) as Hall'.
  { now rewrite <- Hperm. }
  assert (Forall (fun b => 0 <= b) (BurstDuration <$> sorted)) as Hnn.
  { apply Forall_fmap. eapply Forall_impl; [exact Hall'|]. simpl. lia. }
  assert (total (BurstDuration <$> sorted) <= Int64.max_int) as Htotal'.
  { rewrite <- (positive_sum_total _ Hnn).
    rewrite <- (positive_sum_perm _ _ (fmap_Permutation BurstDuration _ _ Hperm)).
    rewrite positive_sum_total; [exact Htotal|].
    apply Forall_fmap. eapply Forall_impl; [exact Hall|]. simpl. lia. }
  intros i r Hr. apply rr_rows_lookup in Hr as (p & Hp & ->).
  exists p. split; [exact Hp|]. cbv zeta.
  pose proof (proj1 (Forall_lookup _ _) Hall' i p Hp) as (Hb & Ha0 & Ha1).
  pose proof (total_take_le _ (S i) Hnn) as HS.
  pose proof (total_take_le _ i Hnn) as Hi.
  rewrite <- !fmap_take in HS, Hi.
  rewrite (take_S_r _ _ _ Hp), fmap_app in HS.
  change (BurstDuration <$> [p]) with [BurstDuration p] in HS.
  rewrite total_snoc in HS.
  assert (rr_turnaround sorted i p
          = total (BurstDuration <$> take i sorted) + BurstDuration p
            - ArrivalTime p) as Ht.
  { unfold rr_turnaround. apply Z.ltb_lt in Hb. rewrite Hb.
    rewrite rr_clock_closed, positive_sum_total
      by (rewrite fmap_take; now apply Forall_take).
    rewrite (take_S_r _ _ _ Hp), fmap_app.
    change (BurstDuration <$> [p]) with [BurstDuration p].
    rewrite total_snoc.
    unfold Int64.sub. rewrite Int64Facts.wrap_sub_l.
    apply Int64Facts.wrap_id.
    unfold Int64.in_range, Int64.min_int, Int64.max_int in *. lia. }
  assert (Int64.sub (rr_turnaround sorted i p) (BurstDuration p)
          = total (BurstDuration <$> take i sorted) - ArrivalTime p) as Hw.
  { rewrite Ht. unfold Int64.sub.
    replace (total (BurstDuration <$> take i sorted) + BurstDuration p
             - ArrivalTime p - BurstDuration p)
      with (total (BurstDuration <$> take i sorted) - ArrivalTime p) by lia.
    apply Int64Facts.wrap_id.
    unfold Int64.in_range, Int64.min_int, Int64.max_int in *. lia. }
  unfold rr_line, num, waiting_nonneg. cbn. rewrite Hw, Ht.
  split; [reflexivity|]. split; [reflexivity|]. split.
  - intros (w & [= <-] & Hle). lia.
  - intros Hle. eexists. split; [reflexivity|lia].
Qed.

Lemma RR_waiting_in_domain_witness :
  exists calls,
    RRSchedule 2 insertionSort "RR" [P1; P2; P3] = Some calls /\
    exists r, scheduleOf calls !! 0%nat = Some r /\ ~ waiting_nonneg r.
Proof.
  destruct (RR_waiting_in_domain insertionSort 0 "RR" [P1; P2; P3]
              insertionSort_sorts) as (calls & Hc & H).
  - repeat constructor; vm_compute; discriminate.
  - vm_compute. discriminate.
  - exists calls. split; [exact Hc|].
    assert (scheduleOf calls !! 0%nat
            = Some [Str "P2"; Num 0; Num 3; Num 1; Num (-1); Num 2]) as Hr.
    { rewrite RRSchedule_closed in Hc. injection Hc as <-. reflexivity. }
    eexists. split; [exact Hr|].
    destruct (H _ _ Hr) as (p & Hp & _ & _ & Hiff).
    injection Hp as <-. intros Hn. apply Hiff in Hn. vm_compute in Hn.
    now apply Hn.
Defined.
